(** * qpageview.rectangles: a spatial index over axis-aligned rectangles

    Shallow embedding of [rectangles.py] (class [Rectangles]) and the
    properties checked against it.

    Modelling conventions
    - Coordinates are Python integers ([Z]); the true divisions [/ 2] and
      [/ 2.0] of [nearest] and [closest] are taken in [Q], which is exact
      for integer operands.
    - The two dictionaries [_items] and [_index] are association lists in
      insertion order, which is the iteration order of a Python dict.
    - A Python [set] is a [gset]; its iteration order is the one of
      [elements].
    - Every method is a function from the state before the call to the
      outcome (a value or a raised exception) and the state after it. *)

From Stdlib Require Import ZArith QArith Qabs Lia.
From stdpp Require Import base decidable countable list sorting gmap sets.

Close Scope Q_scope.
Local Open Scope Z_scope.
Set Warnings "-clear-no-such-hyp".

(** ** Sides and rectangles *)

(** The module constants [Left = 0], [Top = 1], [Right = 2], [Bottom = 3]. *)
Inductive Side := Left | Top | Right | Bottom.

#[global] Instance Side_eq_dec : EqDecision Side.
Proof. solve_decision. Defined.

Definition side_num (s : Side) : Z :=
  match s with Left => 0 | Top => 1 | Right => 2 | Bottom => 3 end.

Definition side_of_num (n : Z) : Side :=
  if n =? 0 then Left else if n =? 1 then Top else if n =? 2 then Right else Bottom.

(** The result of [get_coords]: the four-tuple [(x, y, x2, y2)]. *)
Definition Rect : Type := Z * Z * Z * Z.

(** [coords[side]] *)
Definition coord (coords : Rect) (side : Side) : Z :=
  let '(x, y, x2, y2) := coords in
  match side with Left => x | Top => y | Right => x2 | Bottom => y2 end.

(** ** Library functions used by the class *)

(** [bisect.bisect_right(a, x)]: the binary search of the standard library,
    [while lo < hi: mid = (lo+hi)//2; if x < a[mid]: hi = mid else: lo = mid+1]. *)
Fixpoint bisect_right_loop (fuel : nat) (a : list Z) (x : Z) (lo hi : nat) : nat :=
  match fuel with
  | O => lo
  | S fuel =>
      if decide (lo < hi)%nat then
        let mid := ((lo + hi) / 2)%nat in
        match a !! mid with
        | Some y =>
            if x <? y then bisect_right_loop fuel a x lo mid
            else bisect_right_loop fuel a x (S mid) hi
        | None => lo
        end
      else lo
  end.

Definition bisect_right (a : list Z) (x : Z) : nat :=
  bisect_right_loop (length a) a x 0 (length a).

(** [bisect.bisect_left(a, x)]:
    [while lo < hi: mid = (lo+hi)//2; if a[mid] < x: lo = mid+1 else: hi = mid]. *)
Fixpoint bisect_left_loop (fuel : nat) (a : list Z) (x : Z) (lo hi : nat) : nat :=
  match fuel with
  | O => lo
  | S fuel =>
      if decide (lo < hi)%nat then
        let mid := ((lo + hi) / 2)%nat in
        match a !! mid with
        | Some y =>
            if y <? x then bisect_left_loop fuel a x (S mid) hi
            else bisect_left_loop fuel a x lo mid
        | None => lo
        end
      else lo
  end.

Definition bisect_left (a : list Z) (x : Z) : nat :=
  bisect_left_loop (length a) a x 0 (length a).

(** [l.insert(i, x)]: insert before position [i], at the end when [i] is
    past the end. *)
Definition list_insert_at {A} (i : nat) (x : A) (l : list A) : list A :=
  take i l ++ x :: drop i l.

(** [l.index(x)]: position of the first element equal to [x]. *)
Fixpoint list_index {A} `{EqDecision A} (x : A) (l : list A) : option nat :=
  match l with
  | [] => None
  | y :: l => if decide (y = x) then Some O else S <$> list_index x l
  end.

(** [l.sort(key=...)]: a stable sort; insertion keeps an element in front of
    the later elements with an equal key. *)
Section sort.
Context {A K : Type} (ltb : K → K → bool) (key : A → K).

Fixpoint sort_insert (x : A) (l : list A) : list A :=
  match l with
  | [] => [x]
  | y :: l' => if ltb (key y) (key x) then y :: sort_insert x l' else x :: l
  end.

Definition sort_by_key (l : list A) : list A := foldr sort_insert [] l.
End sort.

(** Dictionaries in insertion order. *)
Section dict.
Context {K V : Type} `{EqDecision K}.

(** [d[k]] ([None] stands for [KeyError]) and [k in d] *)
Fixpoint dict_get (d : list (K * V)) (k : K) : option V :=
  match d with
  | [] => None
  | (k', v) :: d => if decide (k' = k) then Some v else dict_get d k
  end.

(** [d[k] = v]: overwrite in place, or append a new key *)
Fixpoint dict_set (d : list (K * V)) (k : K) (v : V) : list (K * V) :=
  match d with
  | [] => [(k, v)]
  | (k', v') :: d =>
      if decide (k' = k) then (k', v) :: d else (k', v') :: dict_set d k v
  end.

(** [del d[k]] for a key that is present *)
Fixpoint dict_del (d : list (K * V)) (k : K) : list (K * V) :=
  match d with
  | [] => []
  | (k', v) :: d => if decide (k' = k) then d else (k', v) :: dict_del d k
  end.
End dict.

(** Comparison of rationals, [x < y]. *)
Definition Qltb (x y : Q) : bool :=
  match Qcompare x y with Lt => true | _ => false end.

(** ** Outcomes *)

Inductive exn := KeyError | ValueError | IndexError | TypeError.

Inductive outcome (A : Type) : Type :=
  | Ok (a : A)
  | Raise (e : exn).
Arguments Ok {A} a.
Arguments Raise {A} e.

(** ** The objects

    The class is meant to be subclassed with [get_coords] implemented; the
    objects are dictionary keys and set members (equality and hashing).
    [nearest] also compares tuples that contain objects, which evaluates
    [o1 < o2]; [obj_lt] is that comparison, [None] when the objects' type
    does not define an order (Python raises [TypeError]). *)
Class Rectangular (Obj : Type) `{Countable Obj} := {
  get_coords : Obj → Rect;
  obj_lt : Obj → Obj → option bool;
}.

(** ** The class [Rectangles] *)

(** The instance attributes: [_items] maps an object to its coordinates,
    [_index] maps a side to the pair [(indices, objects)] of parallel lists
    sorted on the coordinate of that side.  [coords_log] is not an attribute:
    it records the calls of [get_coords], in order, so that "requested only
    once" can be stated. *)
Record Rectangles (Obj : Type) := mkRectangles {
  _items : list (Obj * Rect);
  _index : list (Side * (list Z * list Obj));
  coords_log : list Obj;
}.
Arguments mkRectangles {Obj} _ _ _.
Arguments _items {Obj} _.
Arguments _index {Obj} _.
Arguments coords_log {Obj} _.

(** A method call: outcome and state after the call. *)
Definition M (Obj A : Type) : Type := Rectangles Obj → outcome A * Rectangles Obj.

Definition ret {Obj A} (a : A) : M Obj A := λ self, (Ok a, self).
Definition raise {Obj A} (e : exn) : M Obj A := λ self, (Raise e, self).
Definition bind {Obj A B} (m : M Obj A) (k : A → M Obj B) : M Obj B :=
  λ self,
    match m self with
    | (Ok a, self') => k a self'
    | (Raise e, self') => (Raise e, self')
    end.
Definition lift {Obj A} (r : outcome A) : M Obj A := λ self, (r, self).

Notation "'do' x <- m ; k" := (bind m (λ x, k))
  (at level 10, x pattern, m at level 100, k at level 200,
   format "'[v' 'do'  x  <-  m ; '/' k ']'").

Definition obind {A B} (r : outcome A) (k : A → outcome B) : outcome B :=
  match r with Ok a => k a | Raise e => Raise e end.

(** The bound methods passed to [_test]. *)
Inductive meth := Smaller | Larger.

(** [l[start::step]] for [step] 1 or -1; a negative [start] counts from the
    end of the list. *)
Definition slice_from {A} (l : list A) (start step : Z) : list A :=
  let n := Z.of_nat (length l) in
  let start := if start <? 0 then start + n else start in
  if 0 <? step then drop (Z.to_nat (Z.max start 0)) l
  else reverse (take (Z.to_nat (Z.min start (n - 1) + 1)) l).

Section Rectangles.
Context {Obj : Type} `{Rectangular Obj}.

Abbreviation State := (Rectangles Obj).

(** [__init__] with [objects=None] *)
Definition init : State := mkRectangles [] [] [].

(** [add(obj)] *)
Definition add (obj : Obj) : M Obj () := λ self,
  match dict_get (_items self) obj with
  | Some _ => (Ok (), self)
  | None =>
      let coords := get_coords obj in
      let insert_side (e : Side * (list Z * list Obj)) :=
        let '(side, (indices, objects)) := e in
        let i := bisect_left indices (coord coords side) in
        (side, (list_insert_at i (coord coords side) indices,
                list_insert_at i obj objects)) in
      (Ok (), mkRectangles (dict_set (_items self) obj coords)
                           (insert_side <$> _index self)
                           (coords_log self ++ [obj]))
  end.

(** [bulk_add(objects)] *)
Definition bulk_add (objects : list Obj) : M Obj () := λ self,
  (Ok (), mkRectangles
            (foldl (λ d obj, dict_set d obj (get_coords obj)) (_items self) objects)
            []
            (coords_log self ++ objects)).

(** [__init__(objects)] *)
Definition new (objects : list Obj) : State :=
  match objects with
  | [] => init
  | _ => (bulk_add objects init).2
  end.

(** The loop of [remove] over [self._index.values()]; the lists are
    changed in place, so the entries already visited stay changed when a
    later one raises. *)
Fixpoint remove_sides (obj : Obj) (ix : list (Side * (list Z * list Obj)))
    : outcome () * list (Side * (list Z * list Obj)) :=
  match ix with
  | [] => (Ok (), [])
  | (side, (indices, objects)) :: rest =>
      match list_index obj objects with
      | None => (Raise ValueError, ix)
      | Some i =>
          if decide (i < length indices)%nat then
            let '(r, rest') := remove_sides obj rest in
            (r, (side, (delete i indices, delete i objects)) :: rest')
          else (Raise IndexError, (side, (indices, delete i objects)) :: rest)
      end
  end.

(** [remove(obj)] *)
Definition remove (obj : Obj) : M Obj () := λ self,
  match dict_get (_items self) obj with
  | None => (Raise KeyError, self)
  | Some _ =>
      let '(r, ix) := remove_sides obj (_index self) in
      (r, mkRectangles (dict_del (_items self) obj) ix (coords_log self))
  end.

(** [clear()] *)
Definition clear : M Obj () := λ self,
  (Ok (), mkRectangles [] [] (coords_log self)).

(** [__len__] and [__contains__] *)
Definition len (self : State) : nat := length (_items self).
Definition contains (self : State) (obj : Obj) : bool :=
  bool_decide (is_Some (dict_get (_items self) obj)).

(** [_sorted(side)] *)
Definition _sorted (side : Side) : M Obj (list Z * list Obj) := λ self,
  match dict_get (_index self) side with
  | Some result => (Ok result, self)
  | None =>
      let result :=
        match _items self with
        | [] => ([], [])
        | _ =>
            let objects :=
              sort_by_key Z.ltb fst
                ((λ e : Obj * Rect, (coord e.2 side, e.1)) <$> _items self) in
            (objects.*1, objects.*2)
        end in
      (Ok result,
       mkRectangles (_items self) (dict_set (_index self) side result)
                    (coords_log self))
  end.

(** [_smaller(side, value)] *)
Definition _smaller (side : Side) (value : Z) : M Obj (list Obj) :=
  do (indices, objects) <- _sorted side;
  ret (take (bisect_right indices value) objects).

(** [_larger(side, value)] *)
Definition _larger (side : Side) (value : Z) : M Obj (list Obj) :=
  do (indices, objects) <- _sorted side;
  ret (drop (bisect_left indices value) objects).

Definition call (m : meth) : Side → Z → M Obj (list Obj) :=
  match m with Smaller => _smaller | Larger => _larger end.

(** The loop of [_test] over [tests[1:]]. *)
Fixpoint _test_loop (result : gset Obj) (tests : list (meth * Side * Z))
    : M Obj (gset Obj) :=
  match tests with
  | [] => ret result
  | (m, side, value) :: tests =>
      do l <- call m side value;
      let result := result ∩ list_to_set l in
      if decide (result = ∅) then ret result else _test_loop result tests
  end.

(** [_test(tests...)], called with the tests as positional arguments *)
Definition _test (tests : list (meth * Side * Z)) : M Obj (gset Obj) :=
  match tests with
  | [] => raise IndexError
  | (m, side, value) :: tests =>
      do l <- call m side value;
      let result : gset Obj := list_to_set l in
      if decide (result = ∅) then ret result else _test_loop result tests
  end.

(** [at(x, y)] *)
Definition at_ (x y : Z) : M Obj (gset Obj) :=
  _test [(Smaller, Top, y); (Larger, Bottom, y);
         (Smaller, Left, x); (Larger, Right, x)].

(** [inside(left, top, right, bottom)] *)
Definition inside (left top right bottom : Z) : M Obj (gset Obj) :=
  _test [(Larger, Top, top); (Smaller, Bottom, bottom);
         (Larger, Left, left); (Smaller, Right, right)].

(** [intersecting(left, top, right, bottom)] *)
Definition intersecting (left top right bottom : Z) : M Obj (gset Obj) :=
  _test [(Smaller, Top, bottom); (Larger, Bottom, top);
         (Smaller, Left, right); (Larger, Right, left)].

(** [self._items]: the dictionary itself, which the queries never change *)
Definition get_items : M Obj (list (Obj * Rect)) := λ self, (Ok (_items self), self).

(** [items[obj]] *)
Definition item (items : list (Obj * Rect)) (obj : Obj) : outcome Rect :=
  match dict_get items obj with
  | Some coords => Ok coords
  | None => Raise KeyError
  end.

(** [width(obj)] and [height(obj)] *)
Definition width (obj : Obj) : M Obj Z := λ self,
  (obind (item (_items self) obj) (λ coords,
     Ok (coord coords Right - coord coords Left)), self).
Definition height (obj : Obj) : M Obj Z := λ self,
  (obind (item (_items self) obj) (λ coords,
     Ok (coord coords Bottom - coord coords Top)), self).

(** The index expressions of [closest].  Python's [&] binds tighter than
    [^], which binds tighter than [|]: [side^2], [side^1|2] is
    [(side^1)|2], and [side^1&2] is [side^(1&2)]. *)
Definition side_xor_2 (side : Side) : Side :=
  side_of_num (Z.lxor (side_num side) 2).
Definition side_xor_1_or_2 (side : Side) : Side :=
  side_of_num (Z.lor (Z.lxor (side_num side) 1) 2).
Definition side_xor_1_and_2 (side : Side) : Side :=
  side_of_num (Z.lxor (side_num side) (Z.land 1 2)).

(** [(coords[side^1|2] - coords[side^1&2]) / 2.0] *)
Definition lateral (coords : Rect) (side : Side) : Q :=
  (inject_Z (coord coords (side_xor_1_or_2 side)
             - coord coords (side_xor_1_and_2 side)) / 2)%Q.

(** The [for other in ...] loop of [closest]; [Ok] carries [result] at the
    end of the loop or at the [break]. *)
Fixpoint closest_loop (items : list (Obj * Rect)) (side : Side) (pos : Z)
    (lat : Q) (others : list Obj) (mindist : Q) (result : list (Obj * Q))
    : outcome (list (Obj * Q)) :=
  match others with
  | [] => Ok result
  | other :: others =>
      obind (item items other) (λ coords,
        let pos1 := coord coords (side_xor_2 side) in
        let d := Z.abs (pos1 - pos) in
        if Qltb mindist (inject_Z d) then Ok result
        else
          let lat1 := lateral coords side in
          let dlat := Qabs (lat1 - lat)%Q in
          if Qltb dlat (inject_Z d) then
            let dist := (dlat + inject_Z d)%Q in
            closest_loop items side pos lat others
              (if Qltb dist mindist then dist else mindist)
              (result ++ [(other, dist)])
          else closest_loop items side pos lat others mindist result)
  end.

(** [closest(obj, side)]; [None] is the result of falling off the end. *)
Definition closest (obj : Obj) (side : Side) : M Obj (option Obj) :=
  do items <- get_items;
  do coords <- lift (item items obj);
  let pos := coord coords (side_xor_2 side) in
  let lat := lateral coords side in
  let direction := if side_num side <? side_num Right then -1 else 1 in
  do (indices, objects) <- _sorted (side_xor_2 side);
  do i <- lift (match list_index obj objects with
                | Some i => Ok i | None => Raise ValueError end);
  do mindist <- lift (match last indices with
                      | Some m => Ok m | None => Raise IndexError end);
  do result <- lift (closest_loop items side pos lat
                       (slice_from objects (Z.of_nat i + direction) direction)
                       (inject_Z mindist) []);
  ret (fst <$> head (sort_by_key Qltb snd result)).

(** [min(iterable, key=key)] for a non-empty iterable: the first element
    with the smallest key. *)
Fixpoint min_key_loop {A} (key : A → outcome Q) (best : A) (kbest : Q)
    (l : list A) : outcome A :=
  match l with
  | [] => Ok best
  | a :: l =>
      obind (key a) (λ k,
        if Qltb k kbest then min_key_loop key a k l
        else min_key_loop key best kbest l)
  end.

Definition min_key {A} (key : A → outcome Q) (l : list A) : outcome A :=
  match l with
  | [] => Raise ValueError
  | a :: l => obind (key a) (λ k, min_key_loop key a k l)
  end.

(** [(d1, o1) < (d2, o2)] on tuples: the first components decide unless
    they are equal; then the objects are compared, unless they are the
    same object. *)
Definition pair_lt (a b : Z * Obj) : outcome bool :=
  if decide (a.1 = b.1) then
    if decide (a.2 = b.2) then Ok false
    else match obj_lt a.2 b.2 with
         | Some r => Ok r
         | None => Raise TypeError
         end
  else Ok (a.1 <? b.1).

(** [min(gen)] without a key, on a generator whose elements are computed
    one by one (and may raise). *)
Fixpoint min_loop (best : Z * Obj) (gen : list (outcome (Z * Obj)))
    : outcome (Z * Obj) :=
  match gen with
  | [] => Ok best
  | g :: gen =>
      obind g (λ p,
        obind (pair_lt p best) (λ b : bool,
          min_loop (if b then p else best) gen))
  end.

Definition min_ (gen : list (outcome (Z * Obj))) : outcome (Z * Obj) :=
  match gen with
  | [] => Raise ValueError
  | g :: gen => obind g (λ p, min_loop p gen)
  end.

(** The list comprehension of [nearest]:
    [[min((dist(o), o) for o in objs) for dist, objs in (...) if objs]]. *)
Fixpoint nearest_mins (cands : list ((Obj → outcome Z) * gset Obj))
    : outcome (list (Z * Obj)) :=
  match cands with
  | [] => Ok []
  | (dist, objs) :: cands =>
      if decide (objs = ∅) then nearest_mins cands
      else
        obind (min_ ((λ o, obind (dist o) (λ d, Ok (d, o))) <$> elements objs))
          (λ m, obind (nearest_mins cands) (λ ms, Ok (m :: ms)))
  end.

(** The nested function [center_distance(obj)] of [nearest]. *)
Definition center_distance (i : list (Obj * Rect)) (x y : Z) (obj : Obj)
    : outcome Q :=
  obind (item i obj) (λ '(left_, top_, right_, bottom_),
    let centerx := (inject_Z (right_ + left_) / 2)%Q in
    let centery := (inject_Z (bottom_ + top_) / 2)%Q in
    Ok (Qabs (centerx - inject_Z x) + Qabs (centery - inject_Z y))%Q).

(** The second half of [nearest], from the eight distance functions on:
    no object contains the point, and the four one-sided sets are known. *)
Definition nearest_sides (i : list (Obj * Rect)) (x y : Z)
    (rmid cmid cleft cright rtop rbottom : gset Obj) : outcome (option Obj) :=
  let left o := obind (item i o) (λ c, Ok (coord c Left - x)) in
  let right o := obind (item i o) (λ c, Ok (x - coord c Right)) in
  let top o := obind (item i o) (λ c, Ok (coord c Top - y)) in
  let bottom o := obind (item i o) (λ c, Ok (y - coord c Bottom)) in
  let topleft o := obind (top o) (λ a, obind (left o) (λ b, Ok (a + b))) in
  let topright o := obind (top o) (λ a, obind (right o) (λ b, Ok (a + b))) in
  let bottomleft o := obind (bottom o) (λ a, obind (left o) (λ b, Ok (a + b))) in
  let bottomright o := obind (bottom o) (λ a, obind (right o) (λ b, Ok (a + b))) in
  obind
    (nearest_mins
       [(left, cleft ∩ rmid); (right, cright ∩ rmid);
        (top, rtop ∩ cmid); (bottom, rbottom ∩ cmid);
        (topleft, cleft ∩ rtop); (topright, cright ∩ rtop);
        (bottomleft, cleft ∩ rbottom); (bottomright, cright ∩ rbottom)])
    (λ result,
       match result with
       | [] => Ok None
       | _ => obind (min_ (Ok <$> result)) (λ m, Ok (Some m.2))
       end).

(** [nearest(x, y)] *)
Definition nearest (x y : Z) : M Obj (option Obj) :=
  do i <- get_items;
  do rmid <- _test [(Smaller, Top, y); (Larger, Bottom, y)];
  do cmid <- _test [(Smaller, Left, x); (Larger, Right, x)];
  let mid := rmid ∩ cmid in
  if decide (mid ≠ ∅) then
    lift (obind (min_key (center_distance i x y) (elements mid)) (λ o, Ok (Some o)))
  else
    do cleft <- _larger Left x;
    do cright <- _smaller Right x;
    do rtop <- _larger Top y;
    do rbottom <- _smaller Bottom y;
    lift (nearest_sides i x y rmid cmid (list_to_set cleft) (list_to_set cright)
            (list_to_set rtop) (list_to_set rbottom)).

(** *** Calls and reachable states *)

(** One call of a public method. *)
Inductive op :=
  | OpAdd (obj : Obj)
  | OpBulkAdd (objects : list Obj)
  | OpRemove (obj : Obj)
  | OpClear
  | OpAt (x y : Z)
  | OpInside (left top right bottom : Z)
  | OpIntersecting (left top right bottom : Z)
  | OpNearest (x y : Z)
  | OpClosest (obj : Obj) (side : Side)
  | OpWidth (obj : Obj)
  | OpHeight (obj : Obj).

(** The state after a call, whether it returned or raised. *)
Definition exec (c : op) (self : State) : State :=
  match c with
  | OpAdd obj => (add obj self).2
  | OpBulkAdd objects => (bulk_add objects self).2
  | OpRemove obj => (remove obj self).2
  | OpClear => (clear self).2
  | OpAt x y => (at_ x y self).2
  | OpInside l t r b => (inside l t r b self).2
  | OpIntersecting l t r b => (intersecting l t r b self).2
  | OpNearest x y => (nearest x y self).2
  | OpClosest obj side => (closest obj side self).2
  | OpWidth obj => (width obj self).2
  | OpHeight obj => (height obj self).2
  end.

Definition run (ops : list op) (self : State) : State :=
  foldl (λ self c, exec c self) self ops.

(** The states a program can observe: construction followed by calls. *)
Definition reachable (self : State) : Prop :=
  ∃ objects ops, self = run ops (new objects).

(** *** The invariant *)

(** A side index agrees with the item store: the pairs
    [(indices[k], objects[k])] are, up to order, the pairs
    [(coords[side], obj)] of the items, and [indices] is sorted. *)
Definition side_ok (items : list (Obj * Rect)) (side : Side)
    (ix : list Z * list Obj) : Prop :=
  length ix.1 = length ix.2 ∧
  zip ix.1 ix.2 ≡ₚ (λ e : Obj * Rect, (coord e.2 side, e.1)) <$> items ∧
  StronglySorted Z.le ix.1.

(** The invariant of the class: the keys of the item store are distinct,
    and every side index that has been built agrees with the item store. *)
Definition wf (self : State) : Prop :=
  NoDup (_items self).*1 ∧
  ∀ side ix, (side, ix) ∈ _index self → side_ok (_items self) side ix.

(** What the invariant says about a side index that is present. *)
Definition index_consistent (self : State) : Prop :=
  ∀ side indices objects,
    dict_get (_index self) side = Some (indices, objects) →
    length indices = len self ∧
    length objects = len self ∧
    NoDup objects ∧
    (∀ obj, obj ∈ objects ↔ contains self obj = true) ∧
    (∀ k obj, objects !! k = Some obj →
       ∃ coords, dict_get (_items self) obj = Some coords ∧
                 indices !! k = Some (coord coords side)) ∧
    StronglySorted Z.le indices.

(** The rectangles of the item store are proper: [x < x2] and [y < y2]. *)
Definition proper_rects (self : State) : Prop :=
  ∀ obj coords, dict_get (_items self) obj = Some coords →
    coord coords Left < coord coords Right ∧
    coord coords Top < coord coords Bottom.

(** *** Tie placement of [add] *)

(** The entry of [obj] in the index of [side] after [add(obj)] sits at a
    position [k] such that [rel k j] holds for every position [j] with
    the same coordinate. *)
Definition add_ties (rel : nat → nat → Prop) (self : State) (obj : Obj) : Prop :=
  ∀ side indices objects,
    dict_get (_index self) side = Some (indices, objects) →
    ∃ indices' objects' k,
      dict_get (_index (add obj self).2) side = Some (indices', objects') ∧
      objects' !! k = Some obj ∧
      indices' !! k = Some (coord (get_coords obj) side) ∧
      StronglySorted Z.le indices' ∧
      ∀ j, indices' !! j = Some (coord (get_coords obj) side) → rel k j.

(** After all entries with an equal coordinate ... *)
Definition add_after_ties : State → Obj → Prop := add_ties (λ k j, (j ≤ k)%nat).
(** ... or before all of them. *)
Definition add_before_ties : State → Obj → Prop := add_ties (λ k j, (k ≤ j)%nat).

(** *** Vocabulary of the statements *)

(** [mspec items m Q]: started in a state that satisfies the invariant and
    whose item store is [items], the call [m] ends in such a state again,
    with the same [get_coords] log, and its outcome satisfies [Q]. *)
Definition mspec {A} (items : list (Obj * Rect)) (m : M Obj A)
    (Q : outcome A → Prop) : Prop :=
  ∀ self, wf self → _items self = items →
    wf (m self).2 ∧ _items (m self).2 = items ∧
    coords_log (m self).2 = coords_log self ∧ Q (m self).1.

(** The test that a selection stands for. *)
Definition holds (t : meth * Side * Z) (c : Rect) : Prop :=
  match t with
  | (Smaller, side, value) => coord c side ≤ value
  | (Larger, side, value) => value ≤ coord c side
  end.

(** The objects of the item store whose rectangle satisfies [P]. *)
Definition selects (items : list (Obj * Rect)) (P : Rect → Prop)
    (X : Obj → Prop) : Prop :=
  ∀ o, X o ↔ ∃ c, dict_get items o = Some c ∧ P c.

(** The geometric tests of the three queries, on a rectangle
    [(x, y, x2, y2)]. *)
Definition touches (x y : Z) (c : Rect) : Prop :=
  coord c Top ≤ y ∧ y ≤ coord c Bottom ∧ coord c Left ≤ x ∧ x ≤ coord c Right.
Definition within (left top right bottom : Z) (c : Rect) : Prop :=
  top ≤ coord c Top ∧ coord c Bottom ≤ bottom ∧
  left ≤ coord c Left ∧ coord c Right ≤ right.
Definition overlaps (left top right bottom : Z) (c : Rect) : Prop :=
  coord c Top ≤ bottom ∧ top ≤ coord c Bottom ∧
  coord c Left ≤ right ∧ left ≤ coord c Right.

(** The selections made by [nearest]. *)
Definition spans_y (y : Z) (c : Rect) : Prop := coord c Top ≤ y ∧ y ≤ coord c Bottom.
Definition spans_x (x : Z) (c : Rect) : Prop := coord c Left ≤ x ∧ x ≤ coord c Right.

Definition nearest_post (items : list (Obj * Rect)) (x y : Z)
    (r : outcome (option Obj)) : Prop :=
  ∃ rmid cmid : gset Obj,
    selects items (spans_y y) (.∈ rmid) ∧
    selects items (spans_x x) (.∈ cmid) ∧
    if decide (rmid ∩ cmid ≠ ∅) then
      r = obind (min_key (center_distance items x y) (elements (rmid ∩ cmid)))
            (λ o, Ok (Some o))
    else
      ∃ cleft cright rtop rbottom : gset Obj,
        selects items (λ c, x ≤ coord c Left) (.∈ cleft) ∧
        selects items (λ c, coord c Right ≤ x) (.∈ cright) ∧
        selects items (λ c, y ≤ coord c Top) (.∈ rtop) ∧
        selects items (λ c, coord c Bottom ≤ y) (.∈ rbottom) ∧
        r = nearest_sides items x y rmid cmid cleft cright rtop rbottom.


(** *** Vocabulary of the further properties *)

(** The item store holds, for every object, what [get_coords] returns. *)
Definition coherent (self : State) : Prop :=
  ∀ obj coords, dict_get (_items self) obj = Some coords → coords = get_coords obj.

(** [self'] has the item store and the [get_coords] log of [self], and every
    side index of [self], unchanged; it may have built more of them. *)
Definition extends (self self' : State) : Prop :=
  _items self' = _items self ∧
  coords_log self' = coords_log self ∧
  ∀ side ix, dict_get (_index self) side = Some ix →
             dict_get (_index self') side = Some ix.

(** A call that only reads the item store and only adds side indices, and
    that finds everything it needs once it has run. *)
Definition settled {A} (m : M Obj A) : Prop :=
  ∀ self, extends self (m self).2 ∧
          ∀ self', extends (m self).2 self' → m self' = ((m self).1, self').

(** The three set queries and their geometric tests. *)
Inductive set_query :=
  | QAt (x y : Z)
  | QInside (left top right bottom : Z)
  | QIntersecting (left top right bottom : Z).

Definition ask (q : set_query) : M Obj (gset Obj) :=
  match q with
  | QAt x y => at_ x y
  | QInside l t r b => inside l t r b
  | QIntersecting l t r b => intersecting l t r b
  end.

Definition meets (q : set_query) : Rect → Prop :=
  match q with
  | QAt x y => touches x y
  | QInside l t r b => within l t r b
  | QIntersecting l t r b => overlaps l t r b
  end.


(** The Manhattan distance from the point [(x, y)] to the nearest point of
    a rectangle; 0 when the rectangle contains the point. *)
Definition gap (x y : Z) (c : Rect) : Z :=
  Z.max 0 (Z.max (coord c Left - x) (x - coord c Right))
  + Z.max 0 (Z.max (coord c Top - y) (y - coord c Bottom)).


(** The two quantities [closest] compares for an object with coordinates
    [c] and a candidate with coordinates [co]: the distance [d] along the
    axis, between the coordinates on the side opposite to [side], and the
    test [dlat < d]. *)
Definition along (side : Side) (c co : Rect) : Z :=
  Z.abs (coord co (side_xor_2 side) - coord c (side_xor_2 side)).
Definition accepted (side : Side) (c co : Rect) : Prop :=
  (Qabs (lateral co side - lateral c side) < inject_Z (along side c co))%Q.

End Rectangles.

(** ** Example objects

    Four plain objects with fixed rectangles; their class defines no order,
    so comparing two of them with [<] raises [TypeError]. *)
Inductive box := boxA | boxB | boxC | boxD.

#[global] Instance box_eq_dec : EqDecision box.
Proof. solve_decision. Defined.

#[global] Instance box_countable : Countable box.
Proof.
  refine (inj_countable'
    (λ b, match b with boxA => 0 | boxB => 1 | boxC => 2 | boxD => 3 end)%nat
    (λ n, match n with 0 => boxA | 1 => boxB | 2 => boxC | _ => boxD end)%nat _).
  by intros [].
Defined.

#[global] Instance box_rectangular : Rectangular box := {|
  get_coords b :=
    match b with
    | boxA => (0, 0, 10, 10)
    | boxB => (20, 20, 30, 30)
    | boxC => (0, 20, 10, 30)
    | boxD => (0, 0, 0, 0)
    end;
  obj_lt _ _ := None;
|}.

(** The two squares A and B of the specification's example, given to the
    constructor; no side index is built yet. *)
Definition two_squares : Rectangles box := new [boxA; boxB].

(** The same two squares after a query has built side indices. *)
Definition two_squares_indexed : Rectangles box := (at_ 5 5 two_squares).2.

(** One square, with the four side indices built by a query that finds it. *)
Definition one_square_indexed : Rectangles box := (at_ 0 0 (new [boxA])).2.

(** A and C, the second below the first. *)
Definition two_stacked : Rectangles box := new [boxA; boxC].

(** Objects that can be compared: tiles in a row, ordered by their column;
    tile [n] is the square [(20n, 0, 20n + 10, 10)]. *)
Inductive tile := Tile (column : nat).

#[global] Instance tile_eq_dec : EqDecision tile.
Proof. solve_decision. Defined.

#[global] Instance tile_countable : Countable tile.
Proof.
  refine (inj_countable' (λ t, match t with Tile n => n end) Tile _).
  by intros [].
Defined.

#[global] Instance tile_rectangular : Rectangular tile := {|
  get_coords t :=
    match t with
    | Tile n => (20 * Z.of_nat n, 0, 20 * Z.of_nat n + 10, 10)
    end;
  obj_lt t1 t2 :=
    match t1, t2 with Tile n1, Tile n2 => Some (n1 <? n2)%nat end;
|}.


(** * Properties *)

(** ** Lists: sortedness and binary search *)

Lemma StronglySorted_lookup_le (a : list Z) (i j : nat) (x y : Z) :
  StronglySorted Z.le a → a !! i = Some x → a !! j = Some y → (i ≤ j)%nat → x ≤ y.
Proof.
  intros Hs. revert i j. induction Hs as [|z a Hs IH Hall]; intros i j Hi Hj Hle.
  - by rewrite lookup_nil in Hi.
  - destruct i as [|i], j as [|j]; simpl in *; simplify_eq; try lia.
    + rewrite Forall_forall in Hall. apply Hall. by eapply list_elem_of_lookup_2.
    + eapply IH; eauto with lia.
Qed.

(** The searches end within the fuel they are given: more fuel does not
    change the result. *)
Lemma bisect_right_loop_fuel (a : list Z) (x : Z) (fuel fuel' lo hi : nat) :
  (hi - lo ≤ fuel)%nat → (fuel ≤ fuel')%nat →
  bisect_right_loop fuel' a x lo hi = bisect_right_loop fuel a x lo hi.
Proof.
  revert fuel' lo hi. induction fuel as [|fuel IH]; intros fuel' lo hi Hf Hle.
  - destruct fuel'; cbn [bisect_right_loop]; [done|]. by rewrite decide_False by lia.
  - destruct fuel' as [|fuel']; [lia|]. cbn [bisect_right_loop].
    destruct (decide (lo < hi)%nat) as [Hlt|]; [|done].
    assert (lo ≤ (lo + hi) / 2 < hi)%nat as Hmid.
    { split; [apply Nat.div_le_lower_bound | apply Nat.Div0.div_lt_upper_bound]; lia. }
    destruct (a !! ((lo + hi) / 2)%nat); [|done].
    destruct (x <? z); apply IH; lia.
Qed.

Lemma bisect_left_loop_fuel (a : list Z) (x : Z) (fuel fuel' lo hi : nat) :
  (hi - lo ≤ fuel)%nat → (fuel ≤ fuel')%nat →
  bisect_left_loop fuel' a x lo hi = bisect_left_loop fuel a x lo hi.
Proof.
  revert fuel' lo hi. induction fuel as [|fuel IH]; intros fuel' lo hi Hf Hle.
  - destruct fuel'; cbn [bisect_left_loop]; [done|]. by rewrite decide_False by lia.
  - destruct fuel' as [|fuel']; [lia|]. cbn [bisect_left_loop].
    destruct (decide (lo < hi)%nat) as [Hlt|]; [|done].
    assert (lo ≤ (lo + hi) / 2 < hi)%nat as Hmid.
    { split; [apply Nat.div_le_lower_bound | apply Nat.Div0.div_lt_upper_bound]; lia. }
    destruct (a !! ((lo + hi) / 2)%nat); [|done].
    destruct (z <? x); apply IH; lia.
Qed.

Section bisect.
Variables (a : list Z) (x : Z).
Hypothesis a_sorted : StronglySorted Z.le a.

Lemma bisect_right_loop_spec fuel lo hi :
  (lo ≤ hi ≤ length a)%nat → (hi - lo ≤ fuel)%nat →
  (∀ j y, a !! j = Some y → (j < lo)%nat → y ≤ x) →
  (∀ j y, a !! j = Some y → (hi ≤ j)%nat → x < y) →
  let r := bisect_right_loop fuel a x lo hi in
  (lo ≤ r ≤ hi)%nat ∧ ∀ j y, a !! j = Some y → ((j < r)%nat ↔ y ≤ x).
Proof.
  revert lo hi. induction fuel as [|fuel IH]; intros lo hi Hb Hf Hlo Hhi; cbn [bisect_right_loop].
  - split; [lia|]. intros j y Hj. split; [by eauto|].
    intros Hy. destruct (decide (j < lo)%nat); [done|].
    specialize (Hhi j y Hj). lia.
  - destruct (decide (lo < hi)%nat) as [Hlt|Hge].
    + assert (lo ≤ (lo + hi) / 2 < hi)%nat as Hmid.
      { split; [apply Nat.div_le_lower_bound | apply Nat.Div0.div_lt_upper_bound]; lia. }
      destruct (lookup_lt_is_Some_2 a ((lo + hi) / 2)%nat) as [y Hy]; [lia|].
      rewrite Hy. destruct (Z.ltb_spec x y) as [Hxy|Hxy].
      * destruct (IH lo ((lo + hi) / 2)%nat) as [? ?]; [lia|lia|done| |].
        { intros j z Hj Hle.
          pose proof (StronglySorted_lookup_le a _ _ _ _ a_sorted Hy Hj Hle). lia. }
        split; [lia|done].
      * destruct (IH (S ((lo + hi) / 2)) hi) as [? ?]; [lia|lia| |done|].
        { intros j z Hj Hle.
          assert (j ≤ (lo + hi) / 2)%nat as Hle' by lia.
          pose proof (StronglySorted_lookup_le a _ _ _ _ a_sorted Hj Hy Hle'). lia. }
        split; [lia|done].
    + split; [lia|]. intros j y Hj. split; [by eauto|].
      intros Hy. destruct (decide (j < lo)%nat); [done|].
      specialize (Hhi j y Hj). lia.
Qed.

Lemma bisect_left_loop_spec fuel lo hi :
  (lo ≤ hi ≤ length a)%nat → (hi - lo ≤ fuel)%nat →
  (∀ j y, a !! j = Some y → (j < lo)%nat → y < x) →
  (∀ j y, a !! j = Some y → (hi ≤ j)%nat → x ≤ y) →
  let r := bisect_left_loop fuel a x lo hi in
  (lo ≤ r ≤ hi)%nat ∧ ∀ j y, a !! j = Some y → ((j < r)%nat ↔ y < x).
Proof.
  revert lo hi. induction fuel as [|fuel IH]; intros lo hi Hb Hf Hlo Hhi; cbn [bisect_left_loop].
  - split; [lia|]. intros j y Hj. split; [by eauto|].
    intros Hy. destruct (decide (j < lo)%nat); [done|].
    specialize (Hhi j y Hj). lia.
  - destruct (decide (lo < hi)%nat) as [Hlt|Hge].
    + assert (lo ≤ (lo + hi) / 2 < hi)%nat as Hmid.
      { split; [apply Nat.div_le_lower_bound | apply Nat.Div0.div_lt_upper_bound]; lia. }
      destruct (lookup_lt_is_Some_2 a ((lo + hi) / 2)%nat) as [y Hy]; [lia|].
      rewrite Hy. destruct (Z.ltb_spec y x) as [Hxy|Hxy].
      * destruct (IH (S ((lo + hi) / 2)) hi) as [? ?]; [lia|lia| |done|].
        { intros j z Hj Hle.
          assert (j ≤ (lo + hi) / 2)%nat as Hle' by lia.
          pose proof (StronglySorted_lookup_le a _ _ _ _ a_sorted Hj Hy Hle'). lia. }
        split; [lia|done].
      * destruct (IH lo ((lo + hi) / 2)%nat) as [? ?]; [lia|lia|done| |].
        { intros j z Hj Hle.
          pose proof (StronglySorted_lookup_le a _ _ _ _ a_sorted Hy Hj Hle). lia. }
        split; [lia|done].
    + split; [lia|]. intros j y Hj. split; [by eauto|].
      intros Hy. destruct (decide (j < lo)%nat); [done|].
      specialize (Hhi j y Hj). lia.
Qed.

(** On a sorted list [bisect_right] is the number of elements [≤ x] ... *)
Lemma bisect_right_spec :
  (bisect_right a x ≤ length a)%nat ∧
  ∀ j y, a !! j = Some y → ((j < bisect_right a x)%nat ↔ y ≤ x).
Proof.
  destruct (bisect_right_loop_spec (length a) 0 (length a)) as [? ?];
    [lia|lia|intros; lia| |].
  { intros j y Hj%lookup_lt_Some ?. lia. }
  split; [unfold bisect_right; lia|done].
Qed.

(** ... and [bisect_left] the number of elements [< x]. *)
Lemma bisect_left_spec :
  (bisect_left a x ≤ length a)%nat ∧
  ∀ j y, a !! j = Some y → ((j < bisect_left a x)%nat ↔ y < x).
Proof.
  destruct (bisect_left_loop_spec (length a) 0 (length a)) as [? ?];
    [lia|lia|intros; lia| |].
  { intros j y Hj%lookup_lt_Some ?. lia. }
  split; [unfold bisect_left; lia|done].
Qed.
End bisect.

(** ** Lists: stable sort, insertion, search *)

Section sort_lemmas.
Context {A : Type} (key : A → Z).

Lemma sort_insert_perm (x : A) (l : list A) : sort_insert Z.ltb key x l ≡ₚ x :: l.
Proof.
  induction l as [|y l IH]; simpl; [done|].
  destruct (key y <? key x); [|done].
  rewrite IH. apply Permutation_swap.
Qed.

Lemma sort_by_key_perm (l : list A) : sort_by_key Z.ltb key l ≡ₚ l.
Proof.
  induction l as [|x l IH]; simpl; [done|].
  by rewrite sort_insert_perm, IH.
Qed.

Lemma sort_insert_sorted (x : A) (l : list A) :
  StronglySorted Z.le (key <$> l) →
  StronglySorted Z.le (key <$> sort_insert Z.ltb key x l).
Proof.
  induction l as [|y l IH]; simpl; intros Hs.
  - repeat constructor.
  - apply StronglySorted_cons in Hs as [Hall Hs].
    destruct (Z.ltb_spec (key y) (key x)) as [Hlt|Hge]; simpl.
    + constructor; [by apply IH|].
      rewrite sort_insert_perm. simpl. constructor; [lia|done].
    + constructor; [by constructor|].
      constructor; [done|]. eapply Forall_impl; [done|]. simpl. lia.
Qed.

Lemma sort_by_key_sorted (l : list A) :
  StronglySorted Z.le (key <$> sort_by_key Z.ltb key l).
Proof.
  induction l as [|x l IH]; simpl; [constructor|]. by apply sort_insert_sorted.
Qed.
End sort_lemmas.

Section list_lemmas.
Context {A : Type}.
Implicit Types l : list A.

Lemma list_insert_at_perm (i : nat) (x : A) l : list_insert_at i x l ≡ₚ x :: l.
Proof.
  unfold list_insert_at. rewrite <-Permutation_middle. by rewrite take_drop.
Qed.

Lemma length_list_insert_at (i : nat) (x : A) l :
  length (list_insert_at i x l) = S (length l).
Proof.
  unfold list_insert_at. rewrite length_app. simpl.
  rewrite length_take, length_drop. lia.
Qed.

Lemma lookup_list_insert_at (i : nat) (x : A) l :
  (i ≤ length l)%nat → list_insert_at i x l !! i = Some x.
Proof.
  intros Hi. unfold list_insert_at.
  rewrite lookup_app_r; rewrite length_take; [|lia].
  by replace (i - i `min` length l)%nat with O by lia.
Qed.

Lemma zip_list_insert_at {B} (i : nat) (x : A) (y : B) l (k : list B) :
  length l = length k →
  zip (list_insert_at i x l) (list_insert_at i y k) = list_insert_at i (x, y) (zip l k).
Proof.
  intros Hlen. unfold list_insert_at.
  rewrite zip_with_app by (rewrite !length_take; lia). simpl.
  by rewrite zip_with_take, zip_with_drop.
Qed.

Context `{EqDecision A}.

Lemma list_index_Some (x : A) l (i : nat) : list_index x l = Some i → l !! i = Some x.
Proof.
  revert i. induction l as [|y l IH]; intros i; simpl; [done|].
  destruct (decide (y = x)) as [->|]; [by intros [= <-]|].
  destruct (list_index x l) as [j|]; simpl; [|done].
  intros [= <-]. by apply IH.
Qed.

Lemma list_index_elem_of (x : A) l : x ∈ l → is_Some (list_index x l).
Proof.
  induction 1 as [|y z l Hin IH]; simpl.
  - rewrite decide_True by done. eauto.
  - destruct (decide (z = y)); [eauto|]. destruct IH as [j ->]. simpl. eauto.
Qed.
End list_lemmas.

(** Inserting at the position found by [bisect_left] keeps a list sorted and
    puts the new element in front of the equal ones. *)
Lemma bisect_left_insert_sorted (a : list Z) (x : Z) :
  StronglySorted Z.le a →
  StronglySorted Z.le (list_insert_at (bisect_left a x) x a).
Proof.
  intros Hs. destruct (bisect_left_spec a x Hs) as [Hlen Hspec].
  unfold list_insert_at. apply StronglySorted_app_2.
  - intros y z [j [Hj Hlt]]%elem_of_take Hz.
    apply Hspec in Hj as Hj'. apply Hj' in Hlt.
    apply elem_of_cons in Hz as [->|Hz]; [lia|].
    apply list_elem_of_lookup_1 in Hz as [k Hk]. rewrite lookup_drop in Hk.
    assert (¬ (bisect_left a x + k < bisect_left a x)%nat) as Hn by lia.
    rewrite (Hspec _ _ Hk) in Hn. lia.
  - rewrite <-(take_drop (bisect_left a x) a) in Hs.
    by apply StronglySorted_app_1_l in Hs.
  - constructor.
    + rewrite <-(take_drop (bisect_left a x) a) in Hs.
      by apply StronglySorted_app_1_r in Hs.
    + apply Forall_forall. intros z [k Hk]%list_elem_of_lookup_1.
      rewrite lookup_drop in Hk.
      assert (¬ (bisect_left a x + k < bisect_left a x)%nat) as Hn by lia.
      rewrite (Hspec _ _ Hk) in Hn. lia.
Qed.

(** ** Dictionaries *)

Section dict_lemmas.
Context {K V : Type} `{EqDecision K}.
Implicit Types d : list (K * V).

Lemma dict_get_Some_elem_of d k v : dict_get d k = Some v → (k, v) ∈ d.
Proof.
  induction d as [|[k' v'] d IH]; simpl; [done|].
  destruct (decide (k' = k)) as [->|]; [intros [= ->]; left|right; auto].
Qed.

Lemma dict_get_None d k : dict_get d k = None ↔ k ∉ d.*1.
Proof.
  induction d as [|[k' v'] d IH]; simpl.
  - split; [intros _; apply not_elem_of_nil|done].
  - rewrite not_elem_of_cons. case_decide as Hk.
    + split; [done|]. intros [? _]. by subst.
    + rewrite IH. split; [by split|by intros [_ ?]].
Qed.

Lemma dict_get_is_Some d k : is_Some (dict_get d k) ↔ k ∈ d.*1.
Proof.
  rewrite <-not_eq_None_Some, dict_get_None.
  destruct (decide (k ∈ d.*1)); naive_solver.
Qed.

Lemma dict_get_elem_of d k v : NoDup d.*1 → (k, v) ∈ d → dict_get d k = Some v.
Proof.
  induction d as [|[k' v'] d IH]; simpl; intros Hnd Hin.
  - by apply elem_of_nil in Hin.
  - apply NoDup_cons in Hnd as [Hk' Hnd].
    apply elem_of_cons in Hin as [[= <- <-]|Hin]; [by rewrite decide_True|].
    rewrite decide_False; [by apply IH|].
    intros ->. apply Hk'. apply list_elem_of_fmap. by exists (k, v).
Qed.

Lemma dict_set_fresh d k v : dict_get d k = None → dict_set d k v = d ++ [(k, v)].
Proof.
  induction d as [|[k' v'] d IH]; simpl; [done|].
  destruct (decide (k' = k)); [done|]. intros Hn. by rewrite IH.
Qed.

Lemma dict_get_set_eq d k v : dict_get (dict_set d k v) k = Some v.
Proof.
  induction d as [|[k' v'] d IH]; simpl; repeat (case_decide; simpl); by simplify_eq.
Qed.

Lemma dict_get_set_ne d k k' v : k ≠ k' → dict_get (dict_set d k v) k' = dict_get d k'.
Proof.
  intros Hne.
  induction d as [|[k'' v''] d IH]; simpl; repeat (case_decide; simpl); by simplify_eq.
Qed.

Lemma dict_set_keys_present d k v : k ∈ d.*1 → (dict_set d k v).*1 = d.*1.
Proof.
  induction d as [|[k' v'] d IH]; simpl; intros Hin.
  - by apply elem_of_nil in Hin.
  - destruct (decide (k' = k)) as [->|Hne]; simpl; [done|].
    apply elem_of_cons in Hin as [->|Hin]; [done|]. f_equal. by apply IH.
Qed.

Lemma dict_set_NoDup d k v : NoDup d.*1 → NoDup (dict_set d k v).*1.
Proof.
  intros Hnd. destruct (decide (k ∈ d.*1)) as [Hin|Hnin].
  - by rewrite dict_set_keys_present.
  - rewrite dict_set_fresh by by apply dict_get_None.
    rewrite fmap_app. apply NoDup_app. split_and!; [done| |apply NoDup_singleton].
    intros x Hx ->%list_elem_of_singleton. done.
Qed.

Lemma dict_del_perm d k v : dict_get d k = Some v → d ≡ₚ (k, v) :: dict_del d k.
Proof.
  induction d as [|[k' v'] d IH]; simpl; [done|].
  destruct (decide (k' = k)) as [->|]; [by intros [= ->]|].
  intros Hg. rewrite (IH Hg) at 1. apply Permutation_swap.
Qed.

End dict_lemmas.

(** ** The invariant and the queries *)

Section properties.
Context {Obj : Type} `{Rectangular Obj}.
Implicit Types (self : Rectangles Obj) (items : list (Obj * Rect)).
Implicit Types (obj o : Obj) (side : Side) (coords c : Rect).

Abbreviation proj side := (λ e : Obj * Rect, (coord e.2 side, e.1)).

(** *** What a consistent side index says *)

Section side_ok.
Variables (items : list (Obj * Rect)) (side : Side).
Variables (indices : list Z) (objects : list Obj).
Hypothesis items_NoDup : NoDup items.*1.
Hypothesis ok : side_ok items side (indices, objects).

Lemma side_ok_length : length indices = length items ∧ length objects = length items.
Proof.
  destruct ok as (Hlen & Hperm & _); simpl in *.
  apply Permutation_length in Hperm.
  rewrite length_zip, length_fmap in Hperm. lia.
Qed.

Lemma side_ok_objects : objects ≡ₚ items.*1.
Proof.
  destruct ok as (Hlen & Hperm & _); simpl in *.
  rewrite <-(snd_zip indices objects) by lia. rewrite Hperm.
  by rewrite <-list_fmap_compose.
Qed.

Lemma side_ok_lookup k obj :
  objects !! k = Some obj →
  ∃ coords, dict_get items obj = Some coords ∧
            indices !! k = Some (coord coords side).
Proof.
  destruct ok as (Hlen & Hperm & _); simpl in *. intros Hk.
  destruct (lookup_lt_is_Some_2 indices k) as [a Ha].
  { rewrite Hlen. by eapply lookup_lt_Some. }
  assert ((a, obj) ∈ zip indices objects) as Hin.
  { eapply list_elem_of_lookup_2, lookup_zip_with_Some. eauto. }
  rewrite Hperm in Hin. apply list_elem_of_fmap in Hin as ([o c] & [= -> ->] & Hin).
  exists c. split; [by apply dict_get_elem_of|done].
Qed.

Lemma side_ok_find obj coords :
  dict_get items obj = Some coords →
  ∃ k, objects !! k = Some obj ∧ indices !! k = Some (coord coords side).
Proof.
  destruct ok as (Hlen & Hperm & _); simpl in *. intros Hg.
  assert ((coord coords side, obj) ∈ zip indices objects) as Hin.
  { rewrite Hperm. apply list_elem_of_fmap. exists (obj, coords).
    split; [done|]. by apply dict_get_Some_elem_of. }
  apply list_elem_of_lookup_1 in Hin as [k Hk].
  apply lookup_zip_with_Some in Hk as (a & o & [= <- <-] & ? & ?). eauto.
Qed.

Lemma side_ok_sorted : StronglySorted Z.le indices.
Proof. by destruct ok as (_ & _ & ?). Qed.
End side_ok.

Lemma wf_index_consistent self : wf self → index_consistent self.
Proof.
  intros [Hnd Hix] side indices objects Hg.
  apply dict_get_Some_elem_of, Hix in Hg.
  destruct (side_ok_length _ _ _ _ Hg) as [? ?].
  pose proof (side_ok_objects _ _ _ _ Hg) as Hperm.
  split_and!; try done.
  - by rewrite Hperm.
  - intros obj. rewrite Hperm. unfold contains.
    by rewrite bool_decide_eq_true, dict_get_is_Some.
  - intros k obj. by apply side_ok_lookup.
  - by eapply side_ok_sorted.
Qed.

(** *** A small program logic for the methods *)

Lemma mspec_ret {A} items (a : A) (Q : outcome A → Prop) :
  Q (Ok a) → mspec items (ret a) Q.
Proof. by intros HQ self Hwf Hit. Qed.

Lemma mspec_lift {A} items (r : outcome A) (Q : outcome A → Prop) :
  Q r → mspec items (lift r) Q.
Proof. by intros HQ self Hwf Hit. Qed.

Lemma mspec_raise {A} items e (Q : outcome A → Prop) :
  Q (Raise e) → mspec items (raise e) Q.
Proof. by intros HQ self Hwf Hit. Qed.

Lemma mspec_get_items items (Q : outcome (list (Obj * Rect)) → Prop) :
  Q (Ok items) → mspec items get_items Q.
Proof. intros HQ self Hwf Hit. unfold get_items; simpl. by rewrite Hit. Qed.

Lemma mspec_bind {A B} items (m : M Obj A) (k : A → M Obj B)
    (Q : outcome A → Prop) (R : outcome B → Prop) :
  mspec items m Q →
  (∀ a, Q (Ok a) → mspec items (k a) R) →
  (∀ e, Q (Raise e) → R (Raise e)) →
  mspec items (bind m k) R.
Proof.
  intros Hm Hk He self Hwf Hit. unfold bind.
  destruct (Hm self Hwf Hit) as (Hwf' & Hit' & Hlog & HQ).
  destruct (m self) as [[a|e] self']; simpl in *.
  - destruct (Hk a HQ self' Hwf' Hit') as (? & ? & ? & ?).
    split_and!; try done. congruence.
  - split_and!; try done. by apply He.
Qed.

Lemma mspec_weaken {A} items (m : M Obj A) (Q R : outcome A → Prop) :
  mspec items m Q → (∀ r, Q r → R r) → mspec items m R.
Proof.
  intros Hm HQR self Hwf Hit. destruct (Hm self Hwf Hit) as (? & ? & ? & ?). auto.
Qed.

(** *** [_sorted] *)

Lemma build_side_ok items side :
  side_ok items side
    match items with
    | [] => ([], [])
    | _ => let objects := sort_by_key Z.ltb fst (proj side <$> items) in
           (objects.*1, objects.*2)
    end.
Proof.
  assert (side_ok items side
            ((sort_by_key Z.ltb fst (proj side <$> items)).*1,
             (sort_by_key Z.ltb fst (proj side <$> items)).*2)) as Hok.
  { split_and!; simpl.
    - by rewrite !length_fmap.
    - rewrite zip_fst_snd. apply sort_by_key_perm.
    - apply sort_by_key_sorted. }
  by destruct items.
Qed.

Lemma _sorted_spec items side :
  mspec items (_sorted side) (λ r, ∃ ix, r = Ok ix ∧ side_ok items side ix).
Proof.
  intros self [Hnd Hix] <-. unfold _sorted.
  destruct (dict_get (_index self) side) as [ix|] eqn:Hg; simpl.
  - split_and!; try done. exists ix. split; [done|].
    by apply Hix, dict_get_Some_elem_of.
  - pose proof (build_side_ok (_items self) side) as Hok.
    split_and!; try done; [|eauto].
    split; simpl; [done|]. intros side' ix'.
    rewrite dict_set_fresh by done.
    intros [?|[= -> ->]%list_elem_of_singleton]%elem_of_app; auto.
Qed.

(** *** [_smaller] and [_larger] *)

Lemma _smaller_spec items side value :
  mspec items (_smaller side value)
    (λ r, ∃ l, r = Ok l ∧ selects items (holds (Smaller, side, value)) (.∈ l)).
Proof.
  eapply (mspec_bind _ _ _ (λ r, ∃ ix, r = Ok ix ∧ NoDup items.*1 ∧ side_ok items side ix)).
  - intros self Hwf Hit. destruct (_sorted_spec items side self Hwf Hit) as (?&?&?&ix&?&?).
    split_and!; try done. exists ix. split_and!; try done.
    destruct Hwf as [? _]. by rewrite <-Hit.
  - intros [indices objects] (? & [= <-] & Hnd & Hok). apply mspec_ret.
    eexists; split; [done|]. intros o. simpl.
    destruct (bisect_right_spec indices value (side_ok_sorted _ _ _ _ Hok)) as [_ Hb].
    rewrite elem_of_take. split.
    + intros (k & Hk & Hlt).
      destruct (side_ok_lookup _ _ _ _ Hnd Hok k o Hk) as (c & ? & Hc).
      exists c. split; [done|]. by apply (Hb _ _ Hc).
    + intros (c & Hg & Hle).
      destruct (side_ok_find _ _ _ _ Hok o c Hg) as (k & ? & Hc).
      exists k. split; [done|]. by apply (Hb _ _ Hc).
  - by intros e (? & [=] & _).
Qed.

Lemma _larger_spec items side value :
  mspec items (_larger side value)
    (λ r, ∃ l, r = Ok l ∧ selects items (holds (Larger, side, value)) (.∈ l)).
Proof.
  eapply (mspec_bind _ _ _ (λ r, ∃ ix, r = Ok ix ∧ NoDup items.*1 ∧ side_ok items side ix)).
  - intros self Hwf Hit. destruct (_sorted_spec items side self Hwf Hit) as (?&?&?&ix&?&?).
    split_and!; try done. exists ix. split_and!; try done.
    destruct Hwf as [? _]. by rewrite <-Hit.
  - intros [indices objects] (? & [= <-] & Hnd & Hok). apply mspec_ret.
    eexists; split; [done|]. intros o. simpl.
    destruct (bisect_left_spec indices value (side_ok_sorted _ _ _ _ Hok)) as [_ Hb].
    rewrite list_elem_of_lookup. setoid_rewrite lookup_drop. split.
    + intros (k & Hk).
      destruct (side_ok_lookup _ _ _ _ Hnd Hok _ o Hk) as (c & ? & Hc).
      exists c. split; [done|]. pose proof (Hb _ _ Hc). lia.
    + intros (c & Hg & Hle).
      destruct (side_ok_find _ _ _ _ Hok o c Hg) as (k & Hk & Hc).
      pose proof (Hb _ _ Hc).
      exists (k - bisect_left indices value)%nat.
      by replace (bisect_left indices value + (k - bisect_left indices value))%nat
        with k by lia.
  - by intros e (? & [=] & _).
Qed.

Lemma call_spec items m side value :
  mspec items (call m side value)
    (λ r, ∃ l, r = Ok l ∧ selects items (holds (m, side, value)) (.∈ l)).
Proof. destruct m; [apply _smaller_spec|apply _larger_spec]. Qed.

(** *** [_test] and the three set queries *)

Lemma selects_iff items (P P' : Rect → Prop) (X : Obj → Prop) :
  (∀ c, P c ↔ P' c) → selects items P X → selects items P' X.
Proof.
  intros HP HX o. rewrite (HX o). by setoid_rewrite HP.
Qed.

Lemma _test_loop_spec items tests (result : gset Obj) (P : Rect → Prop) :
  selects items P (.∈ result) →
  mspec items (_test_loop result tests)
    (λ r, ∃ s, r = Ok s ∧
               selects items (λ c, P c ∧ Forall (λ t, holds t c) tests) (.∈ s)).
Proof.
  revert result P. induction tests as [|[[m side] value] tests IH]; intros result P Hsel.
  - apply mspec_ret. exists result. split; [done|].
    eapply selects_iff; [|done]. intros c. rewrite Forall_nil. tauto.
  - simpl. eapply mspec_bind; [apply call_spec| |by intros e (? & [=] & _)].
    intros l (? & [= <-] & Hl).
    assert (selects items (λ c, P c ∧ holds (m, side, value) c)
              (.∈ result ∩ list_to_set l)) as Hsel'.
    { intros o. rewrite elem_of_intersection, elem_of_list_to_set, (Hsel o), (Hl o).
      split.
      - intros [(c & Hc & ?) (c' & Hc' & ?)]. exists c. by simplify_eq.
      - intros (c & Hc & ? & ?). split; by exists c. }
    case_decide as Hempty.
    + apply mspec_ret. eexists; split; [done|]. rewrite Hempty. intros o. split.
      * by intros ?%not_elem_of_empty.
      * intros (c & Hc & HP & [Ht _]%Forall_cons). exfalso.
        apply (not_elem_of_empty (C := gset Obj) o). rewrite <-Hempty.
        apply Hsel'. eauto.
    + eapply mspec_weaken; [by apply IH|]. simpl.
      intros r (s & -> & Hs). exists s. split; [done|].
      eapply selects_iff; [|done]. intros c. rewrite Forall_cons. tauto.
Qed.

Lemma _test_spec items tests :
  tests ≠ [] →
  mspec items (_test tests)
    (λ r, ∃ s, r = Ok s ∧ selects items (λ c, Forall (λ t, holds t c) tests) (.∈ s)).
Proof.
  destruct tests as [|[[m side] value] tests]; [done|]. intros _. simpl.
  eapply mspec_bind; [apply call_spec| |by intros e (? & [=] & _)].
  intros l (? & [= <-] & Hl).
  assert (selects items (holds (m, side, value)) (.∈ (list_to_set l : gset Obj)))
    as Hsel.
  { intros o. by rewrite elem_of_list_to_set, (Hl o). }
  case_decide as Hempty.
  - apply mspec_ret. eexists; split; [done|]. rewrite Hempty. intros o. split.
    + by intros ?%not_elem_of_empty.
    + intros (c & Hc & [Ht _]%Forall_cons). exfalso.
      apply (not_elem_of_empty (C := gset Obj) o). rewrite <-Hempty.
      apply Hsel. eauto.
  - eapply mspec_weaken; [by apply _test_loop_spec|]. simpl.
    intros r (s & -> & Hs). exists s. split; [done|].
    eapply selects_iff; [|done]. intros c. rewrite Forall_cons. tauto.
Qed.

Lemma at_spec items x y :
  mspec items (at_ x y)
    (λ r, ∃ s, r = Ok s ∧ selects items (touches x y) (.∈ s)).
Proof.
  eapply mspec_weaken; [by apply _test_spec|]. simpl.
  intros r (s & -> & Hs). exists s. split; [done|].
  eapply selects_iff; [|done]. intros c. unfold touches.
  rewrite !Forall_cons, Forall_nil. simpl. tauto.
Qed.

Lemma inside_spec items left top right bottom :
  mspec items (inside left top right bottom)
    (λ r, ∃ s, r = Ok s ∧ selects items (within left top right bottom) (.∈ s)).
Proof.
  eapply mspec_weaken; [by apply _test_spec|]. simpl.
  intros r (s & -> & Hs). exists s. split; [done|].
  eapply selects_iff; [|done]. intros c. unfold within.
  rewrite !Forall_cons, Forall_nil. simpl. tauto.
Qed.

Lemma intersecting_spec items left top right bottom :
  mspec items (intersecting left top right bottom)
    (λ r, ∃ s, r = Ok s ∧ selects items (overlaps left top right bottom) (.∈ s)).
Proof.
  eapply mspec_weaken; [by apply _test_spec|]. simpl.
  intros r (s & -> & Hs). exists s. split; [done|].
  eapply selects_iff; [|done]. intros c. unfold overlaps.
  rewrite !Forall_cons, Forall_nil. simpl. tauto.
Qed.

(** *** The mutating methods keep the invariant *)

Lemma add_managed self obj :
  is_Some (dict_get (_items self) obj) → add obj self = (Ok (), self).
Proof. intros [c Hc]. unfold add. by rewrite Hc. Qed.

Lemma add_side_ok items side indices objects obj coords :
  dict_get items obj = None →
  side_ok items side (indices, objects) →
  side_ok (dict_set items obj coords) side
    (list_insert_at (bisect_left indices (coord coords side)) (coord coords side) indices,
     list_insert_at (bisect_left indices (coord coords side)) obj objects).
Proof.
  intros Hnone (Hlen & Hperm & Hs); simpl in *. split_and!; simpl.
  - rewrite !length_list_insert_at. lia.
  - rewrite zip_list_insert_at by done. rewrite list_insert_at_perm, Hperm.
    rewrite dict_set_fresh by done. rewrite fmap_app. simpl.
    apply Permutation_cons_append.
  - by apply bisect_left_insert_sorted.
Qed.

Lemma add_wf self obj : wf self → wf (add obj self).2.
Proof.
  intros [Hnd Hix]. unfold add.
  destruct (dict_get (_items self) obj) as [c|] eqn:Hg; simpl; [done|].
  split; simpl; [by apply dict_set_NoDup|].
  intros side ix ([side' [indices objects]] & [= -> ->] & Hin)%list_elem_of_fmap.
  apply add_side_ok; auto.
Qed.

Lemma bulk_add_wf self objects : wf self → wf (bulk_add objects self).2.
Proof.
  intros [Hnd _]. split; simpl; [|by intros ?? ?%elem_of_nil].
  revert Hnd. generalize (_items self).
  induction objects as [|obj objects IH]; intros items Hnd; simpl; [done|].
  by apply IH, dict_set_NoDup.
Qed.

Lemma new_wf objects : wf (new objects).
Proof.
  assert (wf (init (Obj := Obj))) as Hinit.
  { split; simpl; [constructor|by intros ?? ?%elem_of_nil]. }
  destruct objects; [done|]. by apply bulk_add_wf.
Qed.

Lemma clear_wf self : wf (clear self).2.
Proof. split; simpl; [constructor|by intros ?? ?%elem_of_nil]. Qed.

Lemma StronglySorted_delete (a : list Z) (i : nat) :
  StronglySorted Z.le a → StronglySorted Z.le (delete i a).
Proof.
  intros Hs. revert i. induction Hs as [|z a Hs IH Hall]; intros [|i]; simpl;
    [constructor..|done|].
  constructor; [apply IH|by apply Forall_delete].
Qed.

Lemma zip_delete {A B} (i : nat) (l : list A) (k : list B) :
  zip (delete i l) (delete i k) = delete i (zip l k).
Proof.
  revert i k. induction l as [|x l IH]; intros i k; [by destruct i|].
  destruct k as [|y k]; [by destruct i; simpl; rewrite ?zip_with_nil_r|].
  destruct i as [|i]; simpl; [done|]. f_equal. apply IH.
Qed.

Lemma remove_side_ok items side indices objects obj coords i :
  NoDup items.*1 →
  dict_get items obj = Some coords →
  side_ok items side (indices, objects) →
  objects !! i = Some obj →
  side_ok (dict_del items obj) side (delete i indices, delete i objects).
Proof.
  intros Hnd Hg Hok Hi.
  destruct (side_ok_lookup _ _ _ _ Hnd Hok i obj Hi) as (c & Hc & Ha).
  assert (c = coords) as -> by congruence.
  destruct Hok as (Hlen & Hperm & Hs); simpl in *. split_and!; simpl.
  - rewrite !length_delete by eauto. lia.
  - rewrite zip_delete.
    apply (Permutation_cons_inv (a := (coord coords side, obj))).
    rewrite <-delete_Permutation
      by (apply lookup_zip_with_Some; eexists _, _; eauto).
    rewrite Hperm. by rewrite (dict_del_perm items obj coords) at 1.
  - by apply StronglySorted_delete.
Qed.

Lemma remove_sides_ok items obj coords ix :
  NoDup items.*1 →
  dict_get items obj = Some coords →
  (∀ side e, (side, e) ∈ ix → side_ok items side e) →
  ∃ ix', remove_sides obj ix = (Ok (), ix') ∧
         ∀ side e, (side, e) ∈ ix' → side_ok (dict_del items obj) side e.
Proof.
  intros Hnd Hg. induction ix as [|[side [indices objects]] ix IH]; intros Hix.
  - exists []. split; [done|]. by intros ?? ?%elem_of_nil.
  - assert (side_ok items side (indices, objects)) as Hok by (apply Hix; left).
    destruct (side_ok_find _ _ _ _ Hok obj coords Hg) as (k & Hk & _).
    destruct (list_index_elem_of obj objects) as [i Hi];
      [by eapply list_elem_of_lookup_2|].
    pose proof (list_index_Some _ _ _ Hi) as Hi'.
    destruct IH as (ix' & Hrem & Hix'); [intros; apply Hix; by right|].
    simpl. rewrite Hi, Hrem.
    destruct Hok as (Hlen & Hok'); simpl in Hlen.
    rewrite decide_True by (rewrite Hlen; by eapply lookup_lt_Some).
    eexists; split; [done|].
    intros side' e [[= -> ->]|?]%elem_of_cons; [|by auto].
    eapply remove_side_ok; eauto. by split.
Qed.

Lemma remove_wf self obj : wf self → wf (remove obj self).2.
Proof.
  intros [Hnd Hix]. unfold remove.
  destruct (dict_get (_items self) obj) as [c|] eqn:Hg; simpl; [|done].
  destruct (remove_sides_ok _ obj c (_index self) Hnd Hg Hix) as (ix' & -> & Hix').
  split; simpl; [|done].
  pose proof (dict_del_perm _ _ _ Hg) as Hperm.
  apply (fmap_Permutation fst) in Hperm. rewrite Hperm in Hnd.
  by apply NoDup_cons in Hnd as [_ ?].
Qed.

(** A managed object can be removed. *)
Lemma remove_managed self obj :
  wf self → is_Some (dict_get (_items self) obj) → (remove obj self).1 = Ok ().
Proof.
  intros [Hnd Hix] [c Hg]. unfold remove. rewrite Hg.
  by destruct (remove_sides_ok _ obj c (_index self) Hnd Hg Hix) as (ix' & -> & _).
Qed.

(** *** [closest] and [nearest] *)

Lemma mspec_true_bind {A B} items (m : M Obj A) (k : A → M Obj B) :
  mspec items m (λ _, True) → (∀ a, mspec items (k a) (λ _, True)) →
  mspec items (bind m k) (λ _, True).
Proof. intros Hm Hk. eapply mspec_bind; [done|by intros|done]. Qed.

Lemma closest_spec items obj side :
  mspec items (closest obj side)
    (λ r, dict_get items obj = None → r = Raise KeyError).
Proof.
  unfold closest.
  eapply (mspec_bind _ _ _ (λ r, r = Ok items));
    [by apply mspec_get_items| |by intros e [=]].
  intros ? [= ->].
  eapply (mspec_bind _ _ _ (λ r, r = item items obj));
    [by apply mspec_lift| |].
  - intros coords Hc. unfold item in Hc.
    destruct (dict_get items obj) eqn:Hg; [|done].
    eapply (mspec_weaken _ _ (λ _, True)); [|by intros].
    apply mspec_true_bind; [eapply mspec_weaken; [apply _sorted_spec|done]|].
    intros [indices objects].
    apply mspec_true_bind; [by apply mspec_lift|]. intros i.
    apply mspec_true_bind; [by apply mspec_lift|]. intros mindist.
    apply mspec_true_bind; [by apply mspec_lift|]. intros result.
    by apply mspec_ret.
  - intros e He Hg. unfold item in He. rewrite Hg in He. congruence.
Qed.

Lemma selects_list_to_set items (P : Rect → Prop) (l : list Obj) :
  selects items P (.∈ l) → selects items P (.∈ (list_to_set l : gset Obj)).
Proof. intros Hl o. by rewrite elem_of_list_to_set, (Hl o). Qed.

Lemma nearest_spec items x y : mspec items (nearest x y) (nearest_post items x y).
Proof.
  unfold nearest.
  eapply (mspec_bind _ _ _ (λ r, r = Ok items));
    [by apply mspec_get_items| |by intros e [=]].
  intros ? [= ->].
  eapply mspec_bind; [by apply _test_spec| |by intros e (? & [=] & _)].
  intros rmid (? & [= <-] & Hrmid).
  eapply mspec_bind; [by apply _test_spec| |by intros e (? & [=] & _)].
  intros cmid (? & [= <-] & Hcmid).
  assert (selects items (spans_y y) (.∈ rmid)) as Hr.
  { eapply selects_iff; [|done]. intros c. unfold spans_y.
    rewrite !Forall_cons, Forall_nil. simpl. tauto. }
  assert (selects items (spans_x x) (.∈ cmid)) as Hc.
  { eapply selects_iff; [|done]. intros c. unfold spans_x.
    rewrite !Forall_cons, Forall_nil. simpl. tauto. }
  destruct (decide (rmid ∩ cmid ≠ ∅)) as [Hmid|Hmid].
  - apply mspec_lift. exists rmid, cmid. split_and!; [done..|].
    by rewrite decide_True.
  - eapply mspec_bind; [apply _larger_spec| |by intros e (? & [=] & _)].
    intros cleft (? & [= <-] & Hcleft).
    eapply mspec_bind; [apply _smaller_spec| |by intros e (? & [=] & _)].
    intros cright (? & [= <-] & Hcright).
    eapply mspec_bind; [apply _larger_spec| |by intros e (? & [=] & _)].
    intros rtop (? & [= <-] & Hrtop).
    eapply mspec_bind; [apply _smaller_spec| |by intros e (? & [=] & _)].
    intros rbottom (? & [= <-] & Hrbottom).
    apply mspec_lift. exists rmid, cmid. split_and!; [done..|].
    rewrite decide_False by done.
    eexists _, _, _, _. split_and!; [by apply selects_list_to_set..|done].
Qed.

(** *** Every call keeps the invariant *)

Lemma exec_wf (c : op) self : wf self → wf (exec c self).
Proof.
  intros Hwf. destruct c; simpl.
  - by apply add_wf.
  - by apply bulk_add_wf.
  - by apply remove_wf.
  - by apply clear_wf.
  - by apply (at_spec (_items self) x y self Hwf).
  - by apply (inside_spec (_items self) left top right bottom self Hwf).
  - by apply (intersecting_spec (_items self) left top right bottom self Hwf).
  - by apply (nearest_spec (_items self) x y self Hwf).
  - by apply (closest_spec (_items self) obj side self Hwf).
  - done.
  - done.
Qed.

Lemma run_wf (ops : list op) self : wf self → wf (run ops self).
Proof.
  revert self. induction ops as [|c ops IH]; intros self Hwf; simpl; [done|].
  by apply IH, exec_wf.
Qed.

Lemma reachable_wf self : reachable self → wf self.
Proof. intros (objects & ops & ->). apply run_wf, new_wf. Qed.

(** *** The set queries against their geometric meaning *)

Lemma query_result {A} items (m : M Obj A) (Q : A → Prop) self :
  mspec items m (λ r, ∃ a, r = Ok a ∧ Q a) →
  wf self → _items self = items → ∃ a, (m self).1 = Ok a ∧ Q a.
Proof. intros Hm Hwf Hit. by destruct (Hm self Hwf Hit) as (_ & _ & _ & ?). Qed.

(** C4: in every reachable state [at(x, y)] returns exactly the set of the
    managed objects whose stored rectangle has [top <= y], [bottom >= y],
    [left <= x] and [right >= x], boundaries included. *)
Theorem at_exact self (x y : Z) :
  reachable self →
  ∃ s : gset Obj,
    (at_ x y self).1 = Ok s ∧
    ∀ obj, obj ∈ s ↔
      ∃ coords, dict_get (_items self) obj = Some coords ∧
        coord coords Top ≤ y ∧ y ≤ coord coords Bottom ∧
        coord coords Left ≤ x ∧ x ≤ coord coords Right.
Proof.
  intros Hwf%reachable_wf.
  by apply (query_result (_items self) _ _ self (at_spec _ x y)).
Qed.

(** C9: when the stored rectangles are proper, every object returned by
    [inside(l, t, r, b)] is also returned by [intersecting(l, t, r, b)]. *)
Theorem inside_subseteq_intersecting self (l t r b : Z) :
  reachable self → proper_rects self →
  ∃ s1 s2 : gset Obj,
    (inside l t r b self).1 = Ok s1 ∧
    (intersecting l t r b self).1 = Ok s2 ∧
    s1 ⊆ s2.
Proof.
  intros Hwf%reachable_wf Hproper.
  destruct (query_result (_items self) _ _ self (inside_spec _ l t r b))
    as (s1 & Hs1 & Hin); [done..|].
  destruct (query_result (_items self) _ _ self (intersecting_spec _ l t r b))
    as (s2 & Hs2 & Hov); [done..|].
  exists s1, s2. split_and!; [done..|].
  intros obj (c & Hc & Hw)%Hin. apply Hov. exists c. split; [done|].
  destruct (Hproper obj c Hc). unfold within, overlaps in *. lia.
Qed.

(** C10: the sets returned by [at], [inside] and [intersecting] depend on
    the item store only; two reachable states with the same item store
    answer alike, whichever side indices each of them has built. *)
Theorem queries_index_independent self1 self2 :
  reachable self1 → reachable self2 → _items self1 = _items self2 →
  (∀ x y, (at_ x y self1).1 = (at_ x y self2).1) ∧
  (∀ l t r b, (inside l t r b self1).1 = (inside l t r b self2).1) ∧
  (∀ l t r b, (intersecting l t r b self1).1 = (intersecting l t r b self2).1).
Proof.
  intros Hwf1%reachable_wf Hwf2%reachable_wf Hit.
  assert (∀ (m : M Obj (gset Obj)) (P : Rect → Prop),
    mspec (_items self1) m (λ r, ∃ s, r = Ok s ∧ selects (_items self1) P (.∈ s)) →
    (m self1).1 = (m self2).1) as Hsame.
  { intros m P Hm.
    destruct (query_result _ _ _ self1 Hm) as (s1 & -> & H1); [done..|].
    destruct (query_result _ _ _ self2 Hm) as (s2 & -> & H2); [done..|].
    f_equal. apply set_eq. intros o. by rewrite (H1 o), (H2 o). }
  split_and!; intros.
  - eapply Hsame, at_spec.
  - eapply Hsame, inside_spec.
  - eapply Hsame, intersecting_spec.
Qed.

(** *** The invariant *)

(** C5: every call of a public method keeps the invariant, and under the
    invariant every side index that is present has as many entries as the
    item store, lists exactly the managed objects, each with its
    coordinate on that side, and is sorted non-decreasingly. *)
Theorem invariant_preserved (c : op) self :
  wf self → wf (exec c self) ∧ index_consistent (exec c self).
Proof.
  intros Hwf%(exec_wf c). split; [done|]. by apply wf_index_consistent.
Qed.

(** *** [remove] and [add] *)

(** C6: [remove(obj)] of an object that is not managed raises [KeyError]
    and leaves the whole state as it was. *)
Theorem remove_unmanaged self obj :
  contains self obj = false → remove obj self = (Raise KeyError, self).
Proof.
  unfold contains, remove. rewrite bool_decide_eq_false, <-eq_None_not_Some.
  by intros ->.
Qed.

(** C8: a second [add(obj)] changes nothing: the state after it, with the
    item store, the side indices and the log of [get_coords] calls, is the
    state before it. *)
Theorem add_idempotent self obj :
  add obj (add obj self).2 = (Ok (), (add obj self).2).
Proof.
  apply add_managed. unfold add.
  destruct (dict_get (_items self) obj) as [c|] eqn:Hg; simpl.
  - by rewrite Hg.
  - rewrite dict_get_set_eq. eauto.
Qed.

Lemma dict_get_add_index (ix : list (Side * (list Z * list Obj))) obj coords side :
  dict_get
    ((λ e : Side * (list Z * list Obj),
        let '(side, (indices, objects)) := e in
        let i := bisect_left indices (coord coords side) in
        (side, (list_insert_at i (coord coords side) indices,
                list_insert_at i obj objects))) <$> ix) side
  = (λ e : list Z * list Obj,
       (list_insert_at (bisect_left e.1 (coord coords side)) (coord coords side) e.1,
        list_insert_at (bisect_left e.1 (coord coords side)) obj e.2))
    <$> dict_get ix side.
Proof.
  induction ix as [|[side' [indices objects]] ix IH]; simpl; [done|].
  destruct (decide (side' = side)) as [->|]; [done|apply IH].
Qed.

(** C2 (as the code has it): [add(obj)] of an unmanaged object puts the
    entry of [obj], in every side index that is present, in front of all
    entries with an equal coordinate, and the index stays sorted. *)
Theorem add_inserts_before_ties self obj :
  reachable self → contains self obj = false → add_before_ties self obj.
Proof.
  intros [Hnd Hix]%reachable_wf Hc side indices objects Hg.
  unfold contains in Hc. rewrite bool_decide_eq_false, <-eq_None_not_Some in Hc.
  unfold add. rewrite Hc. simpl. rewrite dict_get_add_index, Hg. simpl.
  apply dict_get_Some_elem_of, Hix in Hg as (Hlen & _ & Hs); simpl in *.
  destruct (bisect_left_spec indices (coord (get_coords obj) side) Hs) as [Hle Hb].
  eexists _, _, (bisect_left indices (coord (get_coords obj) side)).
  split_and!; [done| | | |].
  - apply lookup_list_insert_at. lia.
  - by apply lookup_list_insert_at.
  - by apply bisect_left_insert_sorted.
  - intros j Hj. apply Nat.le_ngt. intros Hlt.
    unfold list_insert_at in Hj.
    rewrite lookup_app_l in Hj by (rewrite length_take; lia).
    rewrite lookup_take_lt in Hj by done.
    apply (Hb _ _ Hj) in Hlt. lia.
Qed.

(** *** The queries on an empty index *)

Lemma selects_nil (P : Rect → Prop) (s : gset Obj) : selects [] P (.∈ s) → s = ∅.
Proof.
  intros Hs. apply set_eq. intros o. rewrite (Hs o). split.
  - by intros (c & [=] & _).
  - by intros ?%not_elem_of_empty.
Qed.

Lemma nearest_sides_empty i (x y : Z) : nearest_sides i x y ∅ ∅ ∅ ∅ ∅ ∅ = Ok None.
Proof.
  unfold nearest_sides. cbn [nearest_mins].
  by rewrite !decide_True by set_solver.
Qed.

(** C3 (as the code has it): on an empty index [at], [inside] and
    [intersecting] return the empty set and [nearest] returns [None];
    [closest] raises [KeyError], since the object it is given is not
    managed. *)
Theorem empty_index_queries self :
  reachable self → len self = 0%nat →
  (∀ x y, (at_ x y self).1 = Ok ∅) ∧
  (∀ l t r b, (inside l t r b self).1 = Ok ∅) ∧
  (∀ l t r b, (intersecting l t r b self).1 = Ok ∅) ∧
  (∀ x y, (nearest x y self).1 = Ok None) ∧
  (∀ obj side, (closest obj side self).1 = Raise KeyError).
Proof.
  intros Hwf%reachable_wf Hlen%nil_length_inv.
  assert (∀ (m : M Obj (gset Obj)) (P : Rect → Prop),
    mspec [] m (λ r, ∃ s, r = Ok s ∧ selects [] P (.∈ s)) →
    (m self).1 = Ok ∅) as Hempty.
  { intros m P Hm.
    destruct (query_result _ _ _ self Hm) as (s & -> & Hs); [done..|].
    f_equal. by eapply selects_nil. }
  split_and!; intros.
  - eapply Hempty, at_spec.
  - eapply Hempty, inside_spec.
  - eapply Hempty, intersecting_spec.
  - destruct (nearest_spec [] x y self Hwf Hlen) as (_ & _ & _ & Hpost).
    destruct Hpost as (rmid & cmid & ->%selects_nil & ->%selects_nil & Hr).
    rewrite decide_False in Hr by (intros Hne; apply Hne; set_solver).
    destruct Hr as (cleft & cright & rtop & rbottom & ->%selects_nil
                    & ->%selects_nil & ->%selects_nil & ->%selects_nil & ->).
    apply nearest_sides_empty.
  - by destruct (closest_spec [] obj side self Hwf Hlen) as (_ & _ & _ & ->).
Qed.

(** *** [nearest] on a non-empty index *)

Lemma nearest_mins_nil (cands : list ((Obj → outcome Z) * gset Obj)) :
  nearest_mins cands = Ok [] → Forall (λ cand, cand.2 = ∅) cands.
Proof.
  induction cands as [|[dist objs] cands IH]; simpl; intros Hm; [constructor|].
  case_decide as Hobjs; [constructor; auto|].
  destruct (min_ _) as [m|e]; simpl in Hm; [|done].
  by destruct (nearest_mins cands).
Qed.

(** Every managed object is in the set of the objects that contain the
    point or in one of the eight edge and corner sets. *)
Lemma nearest_cover items (x y : Z) (rmid cmid cleft cright rtop rbottom : gset Obj)
    obj coords :
  dict_get items obj = Some coords →
  selects items (spans_y y) (.∈ rmid) →
  selects items (spans_x x) (.∈ cmid) →
  selects items (λ c, x ≤ coord c Left) (.∈ cleft) →
  selects items (λ c, coord c Right ≤ x) (.∈ cright) →
  selects items (λ c, y ≤ coord c Top) (.∈ rtop) →
  selects items (λ c, coord c Bottom ≤ y) (.∈ rbottom) →
  obj ∈ rmid ∩ cmid ∪
        (cleft ∩ rmid ∪ cright ∩ rmid ∪ rtop ∩ cmid ∪ rbottom ∩ cmid) ∪
        (cleft ∩ rtop ∪ cright ∩ rtop ∪ cleft ∩ rbottom ∪ cright ∩ rbottom).
Proof.
  intros Hg Hrmid Hcmid Hcleft Hcright Hrtop Hrbottom.
  assert (obj ∈ cmid ∨ obj ∈ cleft ∨ obj ∈ cright) as Hx.
  { rewrite (Hcmid obj), (Hcleft obj), (Hcright obj). unfold spans_x.
    destruct (Z.le_gt_cases x (coord coords Left));
      destruct (Z.le_gt_cases (coord coords Right) x);
      [right; left|right; left|right; right|left]; exists coords; split; auto with lia. }
  assert (obj ∈ rmid ∨ obj ∈ rtop ∨ obj ∈ rbottom) as Hy.
  { rewrite (Hrmid obj), (Hrtop obj), (Hrbottom obj). unfold spans_y.
    destruct (Z.le_gt_cases y (coord coords Top));
      destruct (Z.le_gt_cases (coord coords Bottom) y);
      [right; left|right; left|right; right|left]; exists coords; split; auto with lia. }
  set_solver.
Qed.

Lemma nearest_post_not_None items (x y : Z) r :
  items ≠ [] → nearest_post items x y r → r ≠ Ok None.
Proof.
  intros Hne (rmid & cmid & Hrmid & Hcmid & Hr).
  destruct (decide (rmid ∩ cmid ≠ ∅)) as [Hmid|Hmid].
  - subst r. by destruct (min_key _ _).
  - destruct Hr as (cleft & cright & rtop & rbottom &
                    Hcleft & Hcright & Hrtop & Hrbottom & ->).
    unfold nearest_sides. intros Hnone.
    match type of Hnone with obind (nearest_mins ?cs) _ = _ =>
      pose proof (nearest_mins_nil cs) as Hnil;
      destruct (nearest_mins cs) as [[|m ms]|e] end; simpl in Hnone.
    + specialize (Hnil eq_refl).
      repeat (apply Forall_cons in Hnil as [? Hnil]). simpl in *.
      destruct items as [|[obj coords] items]; [done|].
      assert (dict_get ((obj, coords) :: items) obj = Some coords) as Hg.
      { simpl. by rewrite decide_True. }
      pose proof (nearest_cover _ x y _ _ _ _ _ _ obj coords Hg
                    Hrmid Hcmid Hcleft Hcright Hrtop Hrbottom) as Hcover.
      apply dec_stable in Hmid. set_solver.
    + by destruct (min_loop _ _).
    + done.
Qed.

(** On a non-empty index [nearest] never returns [None]: it returns an
    object or raises. *)
Lemma nearest_never_None self (x y : Z) :
  reachable self → len self ≠ 0%nat → (nearest x y self).1 ≠ Ok None.
Proof.
  intros Hwf%reachable_wf Hlen.
  destruct (nearest_spec (_items self) x y self Hwf eq_refl) as (_ & _ & _ & Hpost).
  eapply nearest_post_not_None; [|done].
  intros Hnil. apply Hlen. unfold len. by rewrite Hnil.
Qed.

(** When the objects can be compared with [<], [nearest] returns a managed
    object on every non-empty index. *)








(** ** Further properties *)

(** *** More on dictionaries *)

Lemma dict_get_set {K V} `{EqDecision K} (d : list (K * V)) (k k' : K) (v : V) :
  dict_get (dict_set d k v) k' = if decide (k' = k) then Some v else dict_get d k'.
Proof.
  destruct (decide (k' = k)) as [->|Hne].
  - apply dict_get_set_eq.
  - by apply dict_get_set_ne.
Qed.

Lemma dict_get_del {K V} `{EqDecision K} (d : list (K * V)) (k k' : K) :
  NoDup d.*1 →
  dict_get (dict_del d k) k' = if decide (k' = k) then None else dict_get d k'.
Proof.
  induction d as [|[k0 v0] d IH]; intros Hnd.
  - simpl. by destruct (decide (k' = k)).
  - apply NoDup_cons in Hnd as [Hk0 Hnd]. simpl.
    destruct (decide (k0 = k)) as [->|Hne].
    + destruct (decide (k' = k)) as [->|Hne'].
      * by apply dict_get_None.
      * destruct (decide (k = k')); [by subst|done].
    + simpl. destruct (decide (k0 = k')) as [->|Hne'].
      * by rewrite decide_False.
      * by apply IH.
Qed.

Lemma dict_del_length {K V} `{EqDecision K} (d : list (K * V)) (k : K) :
  is_Some (dict_get d k) → S (length (dict_del d k)) = length d.
Proof.
  intros [v Hg]. apply dict_del_perm in Hg. by apply Permutation_length in Hg.
Qed.

Lemma dict_set_same {K V} `{EqDecision K} (d : list (K * V)) (k : K) (v : V) :
  dict_get d k = Some v → dict_set d k v = d.
Proof.
  induction d as [|[k0 v0] d IH]; simpl; [done|].
  destruct (decide (k0 = k)) as [->|Hne]; [by intros [= ->]|].
  intros Hg. by rewrite IH.
Qed.

(** *** Reachable states *)

Lemma run_app (ops1 ops2 : list op) self :
  run (ops1 ++ ops2) self = run ops2 (run ops1 self).
Proof. apply foldl_app. Qed.

Lemma reachable_exec (c : op) self : reachable self → reachable (exec c self).
Proof.
  intros (objects & ops & ->). exists objects, (ops ++ [c]). by rewrite run_app.
Qed.

(** *** The set queries, uniformly *)

Lemma ask_spec items (q : set_query) :
  mspec items (ask q) (λ r, ∃ s, r = Ok s ∧ selects items (meets q) (.∈ s)).
Proof.
  destruct q; [apply at_spec|apply inside_spec|apply intersecting_spec].
Qed.

Lemma ask_result (q : set_query) self :
  reachable self →
  ∃ s, (ask q self).1 = Ok s ∧ selects (_items self) (meets q) (.∈ s).
Proof.
  intros Hwf%reachable_wf.
  by apply (query_result (_items self) _ _ self (ask_spec _ q)).
Qed.

(** *** [add] and [remove]: what changes in the item store *)

Lemma contains_false self obj :
  contains self obj = false ↔ dict_get (_items self) obj = None.
Proof. unfold contains. by rewrite bool_decide_eq_false, <-eq_None_not_Some. Qed.

Lemma contains_true self obj :
  contains self obj = true ↔ is_Some (dict_get (_items self) obj).
Proof. unfold contains. by rewrite bool_decide_eq_true. Qed.

Lemma add_items self obj :
  dict_get (_items self) obj = None →
  add obj self
  = (Ok (), mkRectangles (_items self ++ [(obj, get_coords obj)])
              ((λ e : Side * (list Z * list Obj),
                  let '(side, (indices, objects)) := e in
                  let i := bisect_left indices (coord (get_coords obj) side) in
                  (side, (list_insert_at i (coord (get_coords obj) side) indices,
                          list_insert_at i obj objects))) <$> _index self)
              (coords_log self ++ [obj])).
Proof. intros Hg. unfold add. rewrite Hg. by rewrite dict_set_fresh. Qed.

Lemma add_items_lookup self obj o :
  dict_get (_items self) obj = None →
  dict_get (_items (add obj self).2) o
  = if decide (o = obj) then Some (get_coords obj) else dict_get (_items self) o.
Proof. intros Hg. unfold add. rewrite Hg. simpl. apply dict_get_set. Qed.

Lemma remove_items_lookup self obj o :
  NoDup (_items self).*1 →
  dict_get (_items (remove obj self).2) o
  = if decide (o = obj) then None else dict_get (_items self) o.
Proof.
  intros Hnd. unfold remove.
  destruct (dict_get (_items self) obj) as [c|] eqn:Hg.
  - destruct (remove_sides obj (_index self)) as [r ix]. simpl. by apply dict_get_del.
  - simpl. destruct (decide (o = obj)) as [->|]; done.
Qed.

(** [add(obj)] of an unmanaged object succeeds, makes the index one larger,
    stores [get_coords(obj)] for [obj] and leaves the rectangle of every
    other object alone; [get_coords] is called once, for [obj]. *)
Theorem add_new_object self obj :
  contains self obj = false →
  (add obj self).1 = Ok () ∧
  len (add obj self).2 = S (len self) ∧
  (∀ o, dict_get (_items (add obj self).2) o
        = if decide (o = obj) then Some (get_coords obj)
          else dict_get (_items self) o) ∧
  coords_log (add obj self).2 = coords_log self ++ [obj].
Proof.
  intros Hg%contains_false. split_and!.
  - by rewrite add_items.
  - rewrite add_items by done. unfold len. simpl. rewrite length_app. simpl. lia.
  - intros o. by apply add_items_lookup.
  - by rewrite add_items.
Qed.

(** [remove(obj)] of a managed object succeeds, makes the index one smaller,
    forgets [obj] and leaves the rectangle of every other object alone;
    [get_coords] is not called. *)
Theorem remove_managed_object self obj :
  reachable self → contains self obj = true →
  (remove obj self).1 = Ok () ∧
  S (len (remove obj self).2) = len self ∧
  (∀ o, dict_get (_items (remove obj self).2) o
        = if decide (o = obj) then None else dict_get (_items self) o) ∧
  coords_log (remove obj self).2 = coords_log self.
Proof.
  intros Hwf%reachable_wf Hin%contains_true.
  split; [by apply remove_managed|]. split_and!.
  - destruct Hin as [c Hg]. unfold remove, len. rewrite Hg.
    destruct (remove_sides obj (_index self)) as [r ix]. simpl.
    apply dict_del_length. eauto.
  - intros o. apply remove_items_lookup. by destruct Hwf.
  - unfold remove. destruct (dict_get (_items self) obj); [|done].
    by destruct (remove_sides obj (_index self)).
Qed.

(** *** [add] and [remove] followed by a set query *)

(** After [add(obj)] of an unmanaged object, each of [at], [inside] and
    [intersecting] returns what it returned before, plus [obj] exactly when
    the rectangle of [obj] passes the test of the query. *)
Theorem add_then_ask (q : set_query) self obj :
  reachable self → contains self obj = false →
  ∃ s s' : gset Obj,
    (ask q self).1 = Ok s ∧
    (ask q (add obj self).2).1 = Ok s' ∧
    ∀ o, o ∈ s' ↔ o ∈ s ∨ (o = obj ∧ meets q (get_coords obj)).
Proof.
  intros Hr Hnone%contains_false.
  destruct (ask_result q self Hr) as (s & Hs & Hsel).
  destruct (ask_result q _ (reachable_exec (OpAdd obj) self Hr)) as (s' & Hs' & Hsel').
  simpl in Hs', Hsel'. exists s, s'. split_and!; [done..|].
  intros o. rewrite (Hsel' o), (Hsel o).
  setoid_rewrite (add_items_lookup self obj o Hnone).
  destruct (decide (o = obj)) as [->|Hne].
  - split.
    + intros (c & [= <-] & ?). by right.
    + intros [(c & Hg & _)|[_ ?]]; [congruence|eauto].
  - split; [by left|]. by intros [?|[? _]].
Qed.

(** After [remove(obj)], whether it succeeded or raised, each of [at],
    [inside] and [intersecting] returns what it returned before, without
    [obj]. *)
Theorem remove_then_ask (q : set_query) self obj :
  reachable self →
  ∃ s s' : gset Obj,
    (ask q self).1 = Ok s ∧
    (ask q (remove obj self).2).1 = Ok s' ∧
    s' = s ∖ {[obj]}.
Proof.
  intros Hr.
  destruct (ask_result q self Hr) as (s & Hs & Hsel).
  destruct (ask_result q _ (reachable_exec (OpRemove obj) self Hr)) as (s' & Hs' & Hsel').
  simpl in Hs', Hsel'. exists s, s'. split_and!; [done..|].
  apply reachable_wf in Hr as [Hnd _].
  apply set_eq. intros o.
  rewrite elem_of_difference, not_elem_of_singleton, (Hsel' o), (Hsel o).
  setoid_rewrite (remove_items_lookup self obj o Hnd).
  destruct (decide (o = obj)) as [->|Hne].
  - split; [by intros (c & [=] & _)|by intros [_ ?]].
  - split; [by intros ?|by intros [? _]].
Qed.

(** *** [add] followed by [remove] *)

Lemma list_index_middle {A} `{EqDecision A} (x : A) (l1 l2 : list A) :
  x ∉ l1 → list_index x (l1 ++ x :: l2) = Some (length l1).
Proof.
  induction l1 as [|y l1 IH]; simpl; intros Hnin.
  - by rewrite decide_True.
  - apply not_elem_of_cons in Hnin as [Hne Hnin].
    rewrite decide_False by done. by rewrite IH.
Qed.

Lemma list_index_insert_at {A} `{EqDecision A} (i : nat) (x : A) (l : list A) :
  x ∉ l → list_index x (list_insert_at i x l) = Some (i `min` length l)%nat.
Proof.
  intros Hnin. unfold list_insert_at. rewrite list_index_middle, length_take; [done|].
  intros Hin. apply Hnin. by eapply subseteq_take.
Qed.

Lemma delete_insert_at {A} (i : nat) (x : A) (l : list A) :
  delete (i `min` length l)%nat (list_insert_at i x l) = l.
Proof.
  unfold list_insert_at. rewrite <-(length_take l i), delete_middle. apply take_drop.
Qed.

Lemma dict_del_app_fresh {K V} `{EqDecision K} (d : list (K * V)) (k : K) (v : V) :
  dict_get d k = None → dict_del (d ++ [(k, v)]) k = d.
Proof.
  induction d as [|[k0 v0] d IH]; simpl.
  - by rewrite decide_True.
  - destruct (decide (k0 = k)); [done|]. intros Hg. by rewrite IH.
Qed.

Lemma remove_sides_add items obj coords (ix : list (Side * (list Z * list Obj))) :
  NoDup items.*1 → dict_get items obj = None →
  (∀ side e, (side, e) ∈ ix → side_ok items side e) →
  remove_sides obj
    ((λ e : Side * (list Z * list Obj),
        let '(side, (indices, objects)) := e in
        let i := bisect_left indices (coord coords side) in
        (side, (list_insert_at i (coord coords side) indices,
                list_insert_at i obj objects))) <$> ix)
  = (Ok (), ix).
Proof.
  intros Hnd Hnone.
  match goal with |- context [?g <$> ix] => set (f := g) end.
  induction ix as [|[side [indices objects]] ix IH]; intros Hix.
  - done.
  - assert (side_ok items side (indices, objects)) as Hok by (apply Hix; left).
    assert (obj ∉ objects) as Hnin.
    { rewrite (side_ok_objects _ _ _ _ Hok). by apply dict_get_None. }
    destruct Hok as (Hlen & _ & _); simpl in Hlen.
    rewrite fmap_cons.
    change (f (side, (indices, objects))) with
      (side, (list_insert_at (bisect_left indices (coord coords side))
                (coord coords side) indices,
              list_insert_at (bisect_left indices (coord coords side)) obj objects)).
    cbn [remove_sides].
    rewrite list_index_insert_at by done.
    rewrite decide_True by (rewrite length_list_insert_at; lia).
    rewrite IH by (intros; apply Hix; by right).
    rewrite delete_insert_at. rewrite <-Hlen at 1. by rewrite delete_insert_at.
Qed.

(** [add(obj)] of an unmanaged object followed by [remove(obj)] succeeds
    and gives back the item store and every side index as they were. *)
Theorem add_remove_round_trip self obj :
  reachable self → contains self obj = false →
  (remove obj (add obj self).2).1 = Ok () ∧
  _items (remove obj (add obj self).2).2 = _items self ∧
  _index (remove obj (add obj self).2).2 = _index self.
Proof.
  intros [Hnd Hix]%reachable_wf Hnone%contains_false.
  rewrite add_items by done. unfold remove. simpl.
  rewrite <-dict_set_fresh, dict_get_set_eq, dict_set_fresh by done.
  rewrite (remove_sides_add (_items self)) by done. simpl.
  by rewrite dict_del_app_fresh.
Qed.

(** *** [bulk_add] *)

Lemma bulk_items_lookup (objects : list Obj) (d : list (Obj * Rect)) o :
  dict_get (foldl (λ d obj, dict_set d obj (get_coords obj)) d objects) o
  = if decide (o ∈ objects) then Some (get_coords o) else dict_get d o.
Proof.
  revert d. induction objects as [|obj objects IH]; intros d; cbn [foldl].
  - destruct (decide (o ∈ [])) as [Hin|]; [by apply elem_of_nil in Hin|done].
  - rewrite IH, dict_get_set.
    destruct (decide (o ∈ objects)) as [Hin|Hnin],
             (decide (o ∈ obj :: objects)) as [Hin'|Hnin'],
             (decide (o = obj)) as [->|Hne]; try done;
      exfalso;
      first [ apply Hnin'; by right
            | apply Hnin'; by left
            | by apply elem_of_cons in Hin' as [?|?] ].
Qed.

(** [bulk_add(objects)] never fails.  Afterwards the managed objects are the
    old ones and the given ones, every given object has the rectangle
    [get_coords] returns for it, all side indices are discarded, and
    [get_coords] has been called for each given object in turn, those
    already managed included. *)
Theorem bulk_add_effect self (objects : list Obj) :
  (bulk_add objects self).1 = Ok () ∧
  _index (bulk_add objects self).2 = [] ∧
  (∀ o, dict_get (_items (bulk_add objects self).2) o
        = if decide (o ∈ objects) then Some (get_coords o)
          else dict_get (_items self) o) ∧
  coords_log (bulk_add objects self).2 = coords_log self ++ objects.
Proof. split_and!; try done. intros o. apply bulk_items_lookup. Qed.

(** *** The stored rectangles are the ones [get_coords] returns *)

Lemma exec_items_queries (c : op) self :
  wf self →
  match c with
  | OpAdd _ | OpBulkAdd _ | OpRemove _ | OpClear => True
  | _ => _items (exec c self) = _items self
  end.
Proof.
  intros Hwf. destruct c; simpl; try done.
  - by apply (at_spec (_items self) x y self Hwf).
  - by apply (inside_spec (_items self) left top right bottom self Hwf).
  - by apply (intersecting_spec (_items self) left top right bottom self Hwf).
  - by apply (nearest_spec (_items self) x y self Hwf).
  - by apply (closest_spec (_items self) obj side self Hwf).
Qed.

Lemma bulk_add_items_lookup self (objects : list Obj) o :
  dict_get (_items (bulk_add objects self).2) o
  = if decide (o ∈ objects) then Some (get_coords o) else dict_get (_items self) o.
Proof. apply bulk_items_lookup. Qed.

Lemma exec_coherent (c : op) self : wf self → coherent self → coherent (exec c self).
Proof.
  intros Hwf Hco. pose proof (exec_items_queries c self Hwf) as Hq.
  destruct c; cbn [exec] in *; try (by unfold coherent; rewrite Hq).
  - intros o c. destruct (dict_get (_items self) obj) as [c0|] eqn:Hg.
    + rewrite add_managed by eauto. apply Hco.
    + rewrite add_items_lookup by done. case_decide; [by intros [= <-]; subst|apply Hco].
  - intros o c. rewrite bulk_add_items_lookup.
    case_decide; [by intros [= <-]|apply Hco].
  - intros o c. rewrite remove_items_lookup by by destruct Hwf.
    case_decide; [done|apply Hco].
  - by intros o c.
Qed.

Lemma run_coherent (ops : list op) self :
  wf self → coherent self → coherent (run ops self).
Proof.
  revert self. induction ops as [|c ops IH]; intros self Hwf Hco; simpl; [done|].
  by apply IH; [apply exec_wf|apply exec_coherent].
Qed.

Lemma new_coherent (objects : list Obj) : coherent (new objects).
Proof.
  assert (coherent (init (Obj := Obj))) as Hinit by by intros o c.
  destruct objects as [|obj objects]; [done|].
  intros o c. unfold new. rewrite bulk_add_items_lookup.
  case_decide; [by intros [= <-]|done].
Qed.

Lemma reachable_coherent self : reachable self → coherent self.
Proof.
  intros (objects & ops & ->). apply run_coherent; [apply new_wf|apply new_coherent].
Qed.

(** In every reachable state [width(obj)] and [height(obj)] of a managed
    object are the extents of the rectangle [get_coords(obj)]; the calls
    change nothing. *)
Theorem width_height_managed self obj :
  reachable self → contains self obj = true →
  width obj self
  = (Ok (coord (get_coords obj) Right - coord (get_coords obj) Left), self) ∧
  height obj self
  = (Ok (coord (get_coords obj) Bottom - coord (get_coords obj) Top), self).
Proof.
  intros Hco%reachable_coherent [c Hg]%contains_true.
  unfold width, height, item. rewrite Hg. simpl.
  by rewrite (Hco obj c Hg).
Qed.

(** [width], [height] and [closest] of an object that is not managed raise
    [KeyError] and change nothing, not even a side index. *)
Theorem unmanaged_raises self obj side :
  contains self obj = false →
  width obj self = (Raise KeyError, self) ∧
  height obj self = (Raise KeyError, self) ∧
  closest obj side self = (Raise KeyError, self).
Proof.
  intros Hg%contains_false.
  unfold width, height, closest, bind, get_items, lift, item. by rewrite Hg.
Qed.

(** *** [bulk_add] against one [add] per object *)

Lemma run_adds_items (objects : list Obj) self :
  wf self → coherent self →
  _items (run (OpAdd <$> objects) self)
  = foldl (λ d obj, dict_set d obj (get_coords obj)) (_items self) objects.
Proof.
  revert self. induction objects as [|obj objects IH]; intros self Hwf Hco; [done|].
  rewrite fmap_cons. cbn [run foldl]. change (foldl _ ?s ?l) with (run l s) at 1.
  rewrite IH by (by apply exec_wf || by apply exec_coherent). f_equal.
  simpl. unfold add. destruct (dict_get (_items self) obj) as [c|] eqn:Hg; simpl; [|done].
  rewrite (Hco obj c Hg) in Hg. by rewrite dict_set_same.
Qed.

(** In a reachable state, [bulk_add(objects)] and one [add] per object, in
    the same order, lead to the same item store, and then to the same
    answers of [at], [inside] and [intersecting]. *)
Theorem bulk_add_as_adds self (objects : list Obj) :
  reachable self →
  _items (bulk_add objects self).2 = _items (run (OpAdd <$> objects) self) ∧
  ∀ q : set_query,
    (ask q (bulk_add objects self).2).1 = (ask q (run (OpAdd <$> objects) self)).1.
Proof.
  intros Hr.
  assert (_items (bulk_add objects self).2 = _items (run (OpAdd <$> objects) self))
    as Hitems.
  { rewrite run_adds_items; [done|by apply reachable_wf|by apply reachable_coherent]. }
  split; [done|]. intros q.
  assert (wf (bulk_add objects self).2) as Hwf1 by by apply bulk_add_wf, reachable_wf.
  assert (wf (run (OpAdd <$> objects) self)) as Hwf2 by by apply run_wf, reachable_wf.
  destruct (query_result _ _ _ _ (ask_spec _ q) Hwf1 eq_refl) as (s1 & -> & H1).
  destruct (query_result _ _ _ _ (ask_spec _ q) Hwf2 eq_refl) as (s2 & -> & H2).
  f_equal. apply set_eq. intros o. rewrite (H1 o), (H2 o). by rewrite Hitems.
Qed.

(** *** The queries only build side indices, and build each one once *)

Lemma extends_refl self : extends self self.
Proof. by split_and!. Qed.

Lemma extends_trans self1 self2 self3 :
  extends self1 self2 → extends self2 self3 → extends self1 self3.
Proof.
  intros (Hi1 & Hl1 & Hx1) (Hi2 & Hl2 & Hx2). split_and!; [congruence..|auto].
Qed.

Lemma settled_ret {A} (a : A) : settled (Obj := Obj) (ret a).
Proof. intros self. split; [apply extends_refl|done]. Qed.

Lemma settled_lift {A} (r : outcome A) : settled (Obj := Obj) (lift r).
Proof. intros self. split; [apply extends_refl|done]. Qed.

Lemma settled_raise {A} e : settled (Obj := Obj) (raise (A := A) e).
Proof. intros self. split; [apply extends_refl|done]. Qed.

Lemma settled_get_items : settled (Obj := Obj) get_items.
Proof.
  intros self. split; [apply extends_refl|].
  intros self' (Hit & _). unfold get_items. simpl in *. by rewrite Hit.
Qed.

Lemma settled_bind {A B} (m : M Obj A) (k : A → M Obj B) :
  settled (Obj := Obj) m → (∀ a, settled (Obj := Obj) (k a)) → settled (Obj := Obj) (bind m k).
Proof.
  intros Hm Hk self. destruct (Hm self) as [Hext Hagain]. unfold bind.
  destruct (m self) as [[a|e] s1] eqn:Hms; simpl in *.
  - destruct (Hk a s1) as [Hext' Hagain']. split.
    + by eapply extends_trans.
    + intros self' Hself'.
      rewrite Hagain by (by eapply extends_trans). by apply Hagain'.
  - split; [done|]. intros self' Hself'. by rewrite Hagain.
Qed.

Lemma settled__sorted side : settled (Obj := Obj) (_sorted side).
Proof.
  intros self. unfold _sorted.
  destruct (dict_get (_index self) side) as [ix|] eqn:Hg; simpl.
  - split; [apply extends_refl|]. intros self' (_ & _ & Hx).
    by rewrite (Hx side ix Hg).
  - split.
    + split_and!; simpl; [done..|]. intros side' ix' Hg'.
      rewrite dict_get_set_ne; [done|]. intros ->. congruence.
    + intros self' (_ & _ & Hx). simpl in Hx.
      by rewrite (Hx side _ (dict_get_set_eq _ _ _)).
Qed.

Lemma settled_call m side value : settled (Obj := Obj) (call m side value).
Proof.
  destruct m; simpl; (apply settled_bind; [apply settled__sorted|]);
    intros [indices objects]; apply settled_ret.
Qed.

Lemma settled__test_loop (tests : list (meth * Side * Z)) (result : gset Obj) :
  settled (Obj := Obj) (_test_loop result tests).
Proof.
  revert result. induction tests as [|[[m side] value] tests IH]; intros result; simpl.
  - apply settled_ret.
  - apply settled_bind; [apply settled_call|]. intros l.
    case_decide; [apply settled_ret|apply IH].
Qed.

Lemma settled__test (tests : list (meth * Side * Z)) : settled (Obj := Obj) (_test tests).
Proof.
  destruct tests as [|[[m side] value] tests]; simpl; [apply settled_raise|].
  apply settled_bind; [apply settled_call|]. intros l.
  case_decide; [apply settled_ret|apply settled__test_loop].
Qed.

Lemma settled_ask (q : set_query) : settled (Obj := Obj) (ask q).
Proof. destruct q; apply settled__test. Qed.

Lemma settled_nearest (x y : Z) : settled (Obj := Obj) (nearest x y).
Proof.
  unfold nearest.
  apply settled_bind; [apply settled_get_items|]. intros i.
  apply settled_bind; [apply settled__test|]. intros rmid.
  apply settled_bind; [apply settled__test|]. intros cmid.
  case_decide; [apply settled_lift|].
  apply settled_bind; [apply (settled_call Larger)|]. intros cleft.
  apply settled_bind; [apply (settled_call Smaller)|]. intros cright.
  apply settled_bind; [apply (settled_call Larger)|]. intros rtop.
  apply settled_bind; [apply (settled_call Smaller)|]. intros rbottom.
  apply settled_lift.
Qed.

Lemma settled_closest obj side : settled (Obj := Obj) (closest obj side).
Proof.
  unfold closest.
  apply settled_bind; [apply settled_get_items|]. intros items.
  apply settled_bind; [apply settled_lift|]. intros coords.
  apply settled_bind; [apply settled__sorted|]. intros [indices objects].
  apply settled_bind; [apply settled_lift|]. intros i.
  apply settled_bind; [apply settled_lift|]. intros mindist.
  apply settled_bind; [apply settled_lift|]. intros result.
  apply settled_ret.
Qed.

(** In every state, the five queries leave the item store, the log of
    [get_coords] calls and every side index that is already built as they
    are; they can only build side indices that were missing.  [width] and
    [height] change nothing at all. *)
Theorem queries_only_build_indices self :
  (∀ q : set_query, extends self (ask q self).2) ∧
  (∀ x y, extends self (nearest x y self).2) ∧
  (∀ obj side, extends self (closest obj side self).2) ∧
  (∀ obj, (width obj self).2 = self ∧ (height obj self).2 = self).
Proof.
  split_and!; intros.
  - apply settled_ask.
  - apply settled_nearest.
  - apply settled_closest.
  - done.
Qed.

(** In every state, a query that has run once has built all it needs: the
    same query run again, at once or after any other set query, returns the
    same outcome and leaves the state it finds untouched. *)
Theorem repeated_query self :
  (∀ q q' : set_query,
     ask q (ask q self).2 = ((ask q self).1, (ask q self).2) ∧
     ask q (ask q' (ask q self).2).2
     = ((ask q self).1, (ask q' (ask q self).2).2)) ∧
  (∀ x y (q' : set_query),
     nearest x y (nearest x y self).2 = ((nearest x y self).1, (nearest x y self).2) ∧
     nearest x y (ask q' (nearest x y self).2).2
     = ((nearest x y self).1, (ask q' (nearest x y self).2).2)) ∧
  (∀ obj side (q' : set_query),
     closest obj side (closest obj side self).2
     = ((closest obj side self).1, (closest obj side self).2) ∧
     closest obj side (ask q' (closest obj side self).2).2
     = ((closest obj side self).1, (ask q' (closest obj side self).2).2)).
Proof.
  split_and!; intros; split.
  - apply settled_ask, extends_refl.
  - apply settled_ask, settled_ask.
  - apply settled_nearest, extends_refl.
  - apply settled_nearest, settled_ask.
  - apply settled_closest, extends_refl.
  - apply settled_closest, settled_ask.
Qed.

(** *** [inside] and [intersecting] against their geometric meaning *)

(** In every reachable state [inside(l, t, r, b)] returns exactly the
    managed objects whose rectangle lies in the query rectangle, borders
    included: [top >= t], [bottom <= b], [left >= l], [right <= r]. *)
Theorem inside_exact self (l t r b : Z) :
  reachable self →
  ∃ s : gset Obj,
    (inside l t r b self).1 = Ok s ∧
    ∀ obj, obj ∈ s ↔
      ∃ coords, dict_get (_items self) obj = Some coords ∧
        t ≤ coord coords Top ∧ coord coords Bottom ≤ b ∧
        l ≤ coord coords Left ∧ coord coords Right ≤ r.
Proof.
  intros Hwf%reachable_wf.
  by apply (query_result (_items self) _ _ self (inside_spec _ l t r b)).
Qed.

(** In every reachable state [intersecting(l, t, r, b)] returns exactly the
    managed objects whose rectangle meets the query rectangle, touching
    borders included: [top <= b], [bottom >= t], [left <= r], [right >= l]. *)
Theorem intersecting_exact self (l t r b : Z) :
  reachable self →
  ∃ s : gset Obj,
    (intersecting l t r b self).1 = Ok s ∧
    ∀ obj, obj ∈ s ↔
      ∃ coords, dict_get (_items self) obj = Some coords ∧
        coord coords Top ≤ b ∧ t ≤ coord coords Bottom ∧
        coord coords Left ≤ r ∧ l ≤ coord coords Right.
Proof.
  intros Hwf%reachable_wf.
  by apply (query_result (_items self) _ _ self (intersecting_spec _ l t r b)).
Qed.

(** With proper stored rectangles and a query rectangle with [l <= r] and
    [t <= b], an object is returned by [intersecting(l, t, r, b)] exactly
    when [at(x, y)] returns it for some point of the query rectangle. *)
Theorem intersecting_iff_at_some_point self (l t r b : Z) :
  reachable self → proper_rects self → l ≤ r → t ≤ b →
  ∃ s : gset Obj,
    (intersecting l t r b self).1 = Ok s ∧
    ∀ obj, obj ∈ s ↔
      ∃ (x y : Z) (s' : gset Obj),
        l ≤ x ≤ r ∧ t ≤ y ≤ b ∧ (at_ x y self).1 = Ok s' ∧ obj ∈ s'.
Proof.
  intros Hr Hproper Hlr Htb.
  destruct (ask_result (QIntersecting l t r b) self Hr) as (s & Hs & Hsel).
  exists s. split; [done|]. intros obj. rewrite (Hsel obj). split.
  - intros (c & Hg & Hov). destruct (Hproper obj c Hg) as [? ?].
    simpl in Hov. unfold overlaps in Hov.
    destruct (ask_result (QAt (Z.max l (coord c Left)) (Z.max t (coord c Top))) self Hr)
      as (s' & Hs' & Hsel').
    exists (Z.max l (coord c Left)), (Z.max t (coord c Top)), s'.
    split_and!; [lia..|done|].
    apply Hsel'. exists c. split; [done|]. simpl. unfold touches. lia.
  - intros (x & y & s' & Hx & Hy & Hs' & Hin).
    destruct (ask_result (QAt x y) self Hr) as (s'' & Hs'' & Hsel').
    simpl in Hs''. rewrite Hs' in Hs''. injection Hs'' as <-.
    apply Hsel' in Hin as (c & Hg & Ht). exists c. split; [done|].
    simpl in *. unfold touches, overlaps in *. lia.
Qed.

(** *** [nearest] when an object contains the point *)

Lemma Qltb_lt (x y : Q) : Qltb x y = true ↔ (x < y)%Q.
Proof.
  unfold Qltb. rewrite Qlt_alt. destruct (x ?= y)%Q; split; congruence.
Qed.

Lemma Qltb_ge (x y : Q) : Qltb x y = false → (y <= x)%Q.
Proof.
  intros Hf. apply Qnot_lt_le. intros Hlt%Qltb_lt. congruence.
Qed.






(** *** [nearest] when no object contains the point *)

Lemma pair_lt_fst (p q : Z * Obj) (b : bool) :
  pair_lt p q = Ok b → if b then p.1 ≤ q.1 else q.1 ≤ p.1.
Proof.
  unfold pair_lt. destruct (decide (p.1 = q.1)) as [Heq|Hne].
  - intros _. destruct b; lia.
  - intros [= <-]. destruct (Z.ltb_spec p.1 q.1); lia.
Qed.

Lemma min_loop_min (gen : list (outcome (Z * Obj))) (best m : Z * Obj) :
  min_loop best gen = Ok m →
  (m = best ∨ Ok m ∈ gen) ∧ m.1 ≤ best.1 ∧
  ∀ g, g ∈ gen → ∃ p, g = Ok p ∧ m.1 ≤ p.1.
Proof.
  revert best. induction gen as [|g gen IH]; intros best; simpl.
  - intros [= ->]. split_and!; [by left|lia|by intros g ?%elem_of_nil].
  - destruct g as [p|e]; simpl; [|done].
    destruct (pair_lt p best) as [b|e] eqn:Hlt; simpl; [|done].
    apply pair_lt_fst in Hlt. intros (Hm & Hle & Hall)%IH.
    split_and!.
    + destruct Hm as [->|Hm]; [|by right; right].
      destruct b; [right; left|by left].
    + destruct b; lia.
    + intros g [->|Hg]%elem_of_cons; [|by apply Hall].
      exists p. split; [done|]. destruct b; lia.
Qed.

Lemma min__min (gen : list (outcome (Z * Obj))) (m : Z * Obj) :
  min_ gen = Ok m →
  Ok m ∈ gen ∧ ∀ g, g ∈ gen → ∃ p, g = Ok p ∧ m.1 ≤ p.1.
Proof.
  destruct gen as [|[p|e] gen]; simpl; [done| |done].
  intros (Hm & Hle & Hall)%min_loop_min. split.
  - destruct Hm as [->|Hm]; [left|by right].
  - intros g [->|Hg]%elem_of_cons; [eauto|by apply Hall].
Qed.

Lemma nearest_mins_min (cands : list ((Obj → outcome Z) * gset Obj))
    (ms : list (Z * Obj)) :
  nearest_mins cands = Ok ms →
  (∀ m, m ∈ ms → ∃ dist objs, (dist, objs) ∈ cands ∧ m.2 ∈ objs ∧ dist m.2 = Ok m.1) ∧
  (∀ dist objs o, (dist, objs) ∈ cands → o ∈ objs →
     ∃ m d, m ∈ ms ∧ dist o = Ok d ∧ m.1 ≤ d).
Proof.
  revert ms. induction cands as [|[dist objs] cands IH]; intros ms; simpl.
  - intros [= <-]. split; [by intros m ?%elem_of_nil|by intros ??? ?%elem_of_nil].
  - case_decide as Hobjs.
    + intros [Ha Hb]%IH. split.
      * intros m (dist' & objs' & ? & ?)%Ha. exists dist', objs'. split; [by right|done].
      * intros dist' objs' o [[= -> ->]|Hin]%elem_of_cons Ho; [set_solver|eauto].
    + destruct (min_ _) as [m0|e] eqn:Hmin; simpl; [|done].
      destruct (nearest_mins cands) as [ms0|e]; simpl; [|done].
      intros [= <-]. destruct (IH ms0 eq_refl) as [Ha Hb].
      apply min__min in Hmin as [Hm0 Hall].
      assert (∀ o p, obind (dist o) (λ d, Ok (d, o)) = Ok p → dist o = Ok p.1 ∧ p.2 = o)
        as Hg.
      { intros o p. destruct (dist o); simpl; [|done]. by intros [= <-]. }
      split.
      * intros m [->|Hm]%elem_of_cons.
        -- apply list_elem_of_fmap in Hm0 as (o & Ho%eq_sym%Hg & Hin%elem_of_elements).
           destruct Ho as [Hd <-]. exists dist, objs. split; [left|done].
        -- destruct (Ha m Hm) as (dist' & objs' & ? & ?).
           exists dist', objs'. split; [by right|done].
      * intros dist' objs' o [[= -> ->]|Hin]%elem_of_cons Ho.
        -- destruct (Hall (obind (dist o) (λ d, Ok (d, o)))) as (p & Hp & Hle).
           { apply list_elem_of_fmap. exists o. split; [done|by apply elem_of_elements]. }
           apply Hg in Hp as [Hd _]. exists m0, p.1. split; [left|done].
        -- destruct (Hb dist' objs' o Hin Ho) as (m & d & ? & ?).
           exists m, d. split; [by right|done].
Qed.

Lemma nearest_sides_gap items (x y : Z)
    (rmid cmid cleft cright rtop rbottom : gset Obj) o :
  (∀ obj c, dict_get items obj = Some c →
            coord c Left ≤ coord c Right ∧ coord c Top ≤ coord c Bottom) →
  selects items (spans_y y) (.∈ rmid) →
  selects items (spans_x x) (.∈ cmid) →
  selects items (λ c, x ≤ coord c Left) (.∈ cleft) →
  selects items (λ c, coord c Right ≤ x) (.∈ cright) →
  selects items (λ c, y ≤ coord c Top) (.∈ rtop) →
  selects items (λ c, coord c Bottom ≤ y) (.∈ rbottom) →
  rmid ∩ cmid = ∅ →
  nearest_sides items x y rmid cmid cleft cright rtop rbottom = Ok (Some o) →
  ∃ c, dict_get items o = Some c ∧
       ∀ o' c', dict_get items o' = Some c' → gap x y c ≤ gap x y c'.
Proof.
  intros Hproper Hrmid Hcmid Hcleft Hcright Hrtop Hrbottom Hmid Hn.
  unfold nearest_sides in Hn.
  match type of Hn with obind (nearest_mins ?l) _ = _ => set (cs := l) in * end.
  assert (∀ dist objs o' d, (dist, objs) ∈ cs → o' ∈ objs → dist o' = Ok d →
            ∃ c, dict_get items o' = Some c ∧ d = gap x y c) as Hcg.
  { intros dist objs o' d Hin Ho Hd. unfold cs in Hin.
    repeat (apply elem_of_cons in Hin as [Hin|Hin]); [..|by apply elem_of_nil in Hin];
      injection Hin as -> ->; apply elem_of_intersection in Ho as [Ho1 Ho2];
      repeat match goal with
             | Hs : selects items _ _, Ho : _ ∈ _ |- _ =>
                 apply Hs in Ho as (? & ? & ?)
             end;
      simplify_eq;
      match goal with Hg : dict_get items o' = Some ?c |- _ =>
        exists c; split; [done|];
        destruct (Hproper _ _ Hg);
        unfold item in Hd; rewrite Hg in Hd; simpl in Hd;
        injection Hd as <-; unfold gap, spans_x, spans_y in *; lia
      end. }
  destruct (nearest_mins cs) as [ms|e] eqn:Hms; simpl in Hn; [|done].
  destruct ms as [|m0 ms]; [done|].
  destruct (min_ (Ok <$> m0 :: ms)) as [m|e] eqn:Hmin; simpl in Hn; [|done].
  injection Hn as <-.
  apply min__min in Hmin as [Hm Hall].
  apply list_elem_of_fmap in Hm as (m' & [= <-] & Hm).
  apply nearest_mins_min in Hms as [Ha Hb].
  destruct (Ha m Hm) as (dist & objs & Hin & Ho & Hd).
  destruct (Hcg dist objs m.2 m.1 Hin Ho Hd) as (c & Hg & Hgap).
  exists c. split; [done|]. intros o' c' Hg'.
  pose proof (nearest_cover items x y _ _ _ _ _ _ o' c' Hg'
                Hrmid Hcmid Hcleft Hcright Hrtop Hrbottom) as Hcover.
  assert (∃ dist' objs', (dist', objs') ∈ cs ∧ o' ∈ objs')
    as (dist' & objs' & Hin' & Ho').
  { rewrite Hmid in Hcover. rewrite !elem_of_union in Hcover.
    destruct Hcover as [[Hc|[[[Hc|Hc]|Hc]|Hc]]|[[[Hc|Hc]|Hc]|Hc]];
      [by apply not_elem_of_empty in Hc|..];
      eexists _, _; (split; last exact Hc); unfold cs; repeat constructor. }
  destruct (Hb dist' objs' o' Hin' Ho') as (m1 & d & Hm1 & Hd' & Hle).
  destruct (Hcg dist' objs' o' d Hin' Ho' Hd') as (c'' & Hg'' & ->).
  assert (c'' = c') as -> by congruence.
  destruct (Hall (Ok m1)) as (p & [= <-] & Hle').
  { by apply list_elem_of_fmap_2. }
  lia.
Qed.

(** When no managed rectangle contains the point and [nearest(x, y)]
    returns an object, that object is managed and its rectangle is at the
    least Manhattan distance from the point among all managed rectangles
    (the stored rectangles being proper). *)
Theorem nearest_outside_minimal self (x y : Z) o :
  reachable self → proper_rects self →
  (∀ obj c, dict_get (_items self) obj = Some c → ¬ touches x y c) →
  (nearest x y self).1 = Ok (Some o) →
  ∃ c, dict_get (_items self) o = Some c ∧
       ∀ o' c', dict_get (_items self) o' = Some c' → gap x y c ≤ gap x y c'.
Proof.
  intros Hwf%reachable_wf Hproper Hout Hn.
  destruct (nearest_spec (_items self) x y self Hwf eq_refl) as (_ & _ & _ & Hpost).
  rewrite Hn in Hpost.
  destruct Hpost as (rmid & cmid & Hrmid & Hcmid & Hr).
  assert (rmid ∩ cmid = ∅) as Hmid.
  { apply set_eq. intros o'. split; [|by intros ?%not_elem_of_empty].
    intros [(c & Hc & ?)%Hrmid (c' & Hc' & ?)%Hcmid]%elem_of_intersection.
    simplify_eq. exfalso. apply (Hout o' c Hc).
    unfold touches, spans_x, spans_y in *. tauto. }
  rewrite decide_False in Hr by (intros Hne; by apply Hne).
  destruct Hr as (cleft & cright & rtop & rbottom &
                  Hcleft & Hcright & Hrtop & Hrbottom & Hr).
  eapply nearest_sides_gap; eauto.
  intros obj c Hg. destruct (Hproper obj c Hg). lia.
Qed.

(** *** [closest] *)

Lemma sort_insert_perm_gen {A K} (ltb : K → K → bool) (key : A → K) (x : A) (l : list A) :
  sort_insert ltb key x l ≡ₚ x :: l.
Proof.
  induction l as [|y l IH]; simpl; [done|].
  destruct (ltb (key y) (key x)); [|done].
  rewrite IH. apply Permutation_swap.
Qed.

Lemma sort_by_key_perm_gen {A K} (ltb : K → K → bool) (key : A → K) (l : list A) :
  sort_by_key ltb key l ≡ₚ l.
Proof.
  induction l as [|x l IH]; simpl; [done|].
  by rewrite sort_insert_perm_gen, IH.
Qed.

Lemma closest_loop_res items side (pos : Z) (lat : Q) (others : list Obj)
    (mindist M : Q) (result res : list (Obj * Q)) :
  (mindist <= M)%Q →
  closest_loop items side pos lat others mindist result = Ok res →
  ∀ e, e ∈ res →
    e ∈ result ∨
    (e.1 ∈ others ∧
     ∃ co, dict_get items e.1 = Some co ∧
       (Qabs (lateral co side - lat)
        < inject_Z (Z.abs (coord co (side_xor_2 side) - pos)))%Q ∧
       (inject_Z (Z.abs (coord co (side_xor_2 side) - pos)) <= M)%Q).
Proof.
  revert mindist result. induction others as [|other others IH];
    intros mindist result HM; cbn [closest_loop].
  - intros [= <-] e He. by left.
  - unfold item. destruct (dict_get items other) as [co|] eqn:Hg; cbn [obind]; [|done].
    match goal with |- context [Qltb mindist ?d] =>
      destruct (Qltb mindist d) eqn:Hbreak end.
    { intros [= <-] e He. by left. }
    apply Qltb_ge in Hbreak.
    match goal with |- context [Qltb (Qabs ?a) ?d] =>
      destruct (Qltb (Qabs a) d) eqn:Hlat end.
    + intros Hloop e He.
      match type of Hloop with closest_loop _ _ _ _ _ ?md _ = _ =>
        assert (md <= M)%Q as HM' end.
      { match goal with |- ((if Qltb ?a mindist then _ else _) <= M)%Q =>
          destruct (Qltb a mindist) eqn:Hmin end; [|done].
        apply Qltb_lt in Hmin. eapply Qle_trans; [by apply Qlt_le_weak|done]. }
      destruct (IH _ _ HM' Hloop e He) as [Hin|(Hin & Hacc)].
      * apply elem_of_app in Hin as [Hin|Hin%list_elem_of_singleton]; [by left|].
        subst e. right. split; [left|]. exists co. split_and!; [done| |].
        -- by apply Qltb_lt.
        -- by eapply Qle_trans.
      * right. split; [by right|done].
    + intros Hloop e He.
      destruct (IH _ _ HM Hloop e He) as [Hin|(Hin & Hacc)]; [by left|].
      right. split; [by right|done].
Qed.

(** What a successful [closest(obj, side)] has gone through. *)
Lemma closest_found self obj side o :
  (closest obj side self).1 = Ok (Some o) →
  ∃ c co indices objects i m,
    dict_get (_items self) obj = Some c ∧
    (_sorted (side_xor_2 side) self).1 = Ok (indices, objects) ∧
    list_index obj objects = Some i ∧
    last indices = Some m ∧
    o ∈ slice_from objects
          (Z.of_nat i + (if side_num side <? side_num Right then -1 else 1))
          (if side_num side <? side_num Right then -1 else 1) ∧
    dict_get (_items self) o = Some co ∧
    accepted side c co ∧ along side c co ≤ m.
Proof.
  unfold closest, bind, get_items, lift, ret, item. simpl.
  destruct (dict_get (_items self) obj) as [c|] eqn:Hg; simpl; [|done].
  destruct (_sorted (side_xor_2 side) self) as [[[indices objects]|e] s1] eqn:Hs;
    simpl; [|done].
  destruct (list_index obj objects) as [i|] eqn:Hi; simpl; [|done].
  destruct (last indices) as [m|] eqn:Hm; simpl; [|done].
  destruct (closest_loop _ _ _ _ _ _ _) as [res|e] eqn:Hloop; simpl; [|done].
  intros [= Hhead].
  destruct (head _) as [[o' dist]|] eqn:Hh; simpl in Hhead; [|done].
  injection Hhead as ->.
  apply head_Some_elem_of in Hh. rewrite sort_by_key_perm_gen in Hh.
  eapply closest_loop_res in Hloop as [Hin|(Hin & co & Hco & Hacc & Hle)];
    [| |apply Qle_refl|exact Hh]; [by apply elem_of_nil in Hin|].
  simpl in *. exists c, co, indices, objects, i, m.
  split_and!; try done. unfold along. by rewrite Zle_Qle.
Qed.


Lemma accepted_ne side (c co : Rect) :
  accepted side c co → coord co (side_xor_2 side) ≠ coord c (side_xor_2 side).
Proof.
  intros Hacc Heq. unfold accepted, along in Hacc. rewrite Heq, Z.sub_diag in Hacc.
  apply (Qlt_irrefl 0). eapply Qle_lt_trans; [apply Qabs_nonneg|exact Hacc].
Qed.

Lemma slice_forward {A} (l : list A) (i : nat) :
  slice_from l (Z.of_nat i + 1) 1 = drop (S i) l.
Proof.
  unfold slice_from.
  destruct (Z.ltb_spec (Z.of_nat i + 1) 0); [lia|]. simpl.
  f_equal. lia.
Qed.

Lemma slice_backward {A} (l : list A) (i : nat) :
  (i < length l)%nat →
  slice_from l (Z.of_nat i + -1) (-1)
  = match i with O => reverse l | S _ => reverse (take i l) end.
Proof.
  intros Hi. unfold slice_from. simpl. destruct i as [|i].
  - simpl. replace (Z.to_nat _) with (length l) by lia. by rewrite firstn_all.
  - destruct (Z.ltb_spec (Z.of_nat (S i) + -1) 0); [lia|]. do 2 f_equal. lia.
Qed.

Lemma _sorted_side_ok self side indices objects :
  wf self → (_sorted side self).1 = Ok (indices, objects) →
  side_ok (_items self) side (indices, objects).
Proof.
  intros Hwf Hs.
  destruct (_sorted_spec (_items self) side self Hwf eq_refl)
    as (_ & _ & _ & ix & Hix & Hok).
  rewrite Hs in Hix. by injection Hix as <-.
Qed.

(** [closest(obj, Right)] returns only objects whose left coordinate is
    strictly larger than the one of [obj], and [closest(obj, Bottom)] only
    objects whose top coordinate is strictly larger. *)
Theorem closest_forward self obj side o :
  reachable self → side = Right ∨ side = Bottom →
  (closest obj side self).1 = Ok (Some o) →
  ∃ c co,
    dict_get (_items self) obj = Some c ∧
    dict_get (_items self) o = Some co ∧
    coord c (side_xor_2 side) < coord co (side_xor_2 side).
Proof.
  intros Hwf%reachable_wf Hside
    (c & co & indices & objects & i & m & Hc & Hs & Hi & _ & Hin & Hco & Hacc & _)
    %closest_found.
  pose proof (_sorted_side_ok _ _ _ _ Hwf Hs) as Hok. destruct Hwf as [Hnd _].
  exists c, co. split_and!; [done..|].
  assert ((if side_num side <? side_num Right then -1 else 1) = 1) as Hdir
    by by destruct Hside as [-> | ->].
  rewrite Hdir, slice_forward in Hin.
  apply list_elem_of_lookup_1 in Hin as [k Hk]. rewrite lookup_drop in Hk.
  destruct (side_ok_lookup _ _ _ _ Hnd Hok _ _ Hk) as (co' & Hco' & Hik).
  destruct (side_ok_lookup _ _ _ _ Hnd Hok _ _ (list_index_Some _ _ _ Hi))
    as (c' & Hc' & Hii).
  simplify_eq.
  assert (i ≤ S i + k)%nat as Hle by lia.
  pose proof (StronglySorted_lookup_le _ _ _ _ _ (side_ok_sorted _ _ _ _ Hok) Hii Hik Hle).
  apply accepted_ne in Hacc. lia.
Qed.

(** [closest(obj, Left)] returns only objects whose right coordinate is
    strictly smaller than the one of [obj], and [closest(obj, Top)] only
    objects whose bottom coordinate is strictly smaller, provided some
    managed object has such a smaller coordinate. *)
Theorem closest_backward self obj side o :
  reachable self → side = Left ∨ side = Top →
  (∃ o' c c', dict_get (_items self) obj = Some c ∧
              dict_get (_items self) o' = Some c' ∧
              coord c' (side_xor_2 side) < coord c (side_xor_2 side)) →
  (closest obj side self).1 = Ok (Some o) →
  ∃ c co,
    dict_get (_items self) obj = Some c ∧
    dict_get (_items self) o = Some co ∧
    coord co (side_xor_2 side) < coord c (side_xor_2 side).
Proof.
  intros Hwf%reachable_wf Hside (o' & c0 & c' & Hc0 & Hc' & Hlt)
    (c & co & indices & objects & i & m & Hc & Hs & Hi & _ & Hin & Hco & Hacc & _)
    %closest_found.
  pose proof (_sorted_side_ok _ _ _ _ Hwf Hs) as Hok. destruct Hwf as [Hnd _].
  assert (c0 = c) as -> by congruence.
  exists c, co. split_and!; [done..|].
  pose proof (list_index_Some _ _ _ Hi) as Hi'.
  destruct (side_ok_lookup _ _ _ _ Hnd Hok _ _ Hi') as (c1 & Hc1 & Hii).
  assert (c1 = c) as -> by congruence.
  assert (i ≠ O) as Hi0.
  { intros ->. destruct (side_ok_find _ _ _ _ Hok o' c' Hc') as (k & _ & Hk).
    assert (0 ≤ k)%nat as Hle by lia.
    pose proof (StronglySorted_lookup_le _ _ _ _ _ (side_ok_sorted _ _ _ _ Hok)
                  Hii Hk Hle). lia. }
  assert ((if side_num side <? side_num Right then -1 else 1) = -1) as Hdir
    by by destruct Hside as [-> | ->].
  rewrite Hdir, slice_backward in Hin by by eapply lookup_lt_Some.
  destruct i as [|i]; [done|].
  apply elem_of_reverse, elem_of_take in Hin as (k & Hk & Hlt').
  destruct (side_ok_lookup _ _ _ _ Hnd Hok _ _ Hk) as (co' & Hco' & Hik).
  assert (co' = co) as -> by congruence.
  assert (k ≤ S i)%nat as Hle by lia.
  pose proof (StronglySorted_lookup_le _ _ _ _ _ (side_ok_sorted _ _ _ _ Hok) Hik Hii Hle).
  apply accepted_ne in Hacc. lia.
Qed.




(** *** A maintained index against a rebuilt one *)

Lemma StronglySorted_fmap_inv {A} (f : A → Z) (l : list A) :
  StronglySorted Z.le (f <$> l) → StronglySorted (λ a b, f a ≤ f b) l.
Proof.
  induction l as [|a l IH]; intros Hs.
  - apply SSorted_nil.
  - rewrite fmap_cons in Hs. apply StronglySorted_cons in Hs as [Hall Hs].
    apply SSorted_cons; [by apply IH|]. rewrite Forall_fmap in Hall.
    eapply Forall_impl; [exact Hall|]. by intros b Hb.
Qed.

(** When no two managed objects have the same coordinate on [side], a side
    index that is present, however it was built and maintained by [add] and
    [remove], is identical to the one [_sorted(side)] builds from the item
    store after the indices have been discarded. *)
Theorem index_without_ties self side (indices : list Z) (objects : list Obj) :
  reachable self →
  dict_get (_index self) side = Some (indices, objects) →
  (∀ o1 o2 c1 c2,
     dict_get (_items self) o1 = Some c1 → dict_get (_items self) o2 = Some c2 →
     coord c1 side = coord c2 side → o1 = o2) →
  (_sorted side (mkRectangles (_items self) [] (coords_log self))).1
  = Ok (indices, objects).
Proof.
  intros [Hnd Hix]%reachable_wf Hg Hties.
  apply dict_get_Some_elem_of, Hix in Hg as (Hlen & Hperm & Hs); simpl in *.
  set (built := sort_by_key Z.ltb fst (proj side <$> _items self)).
  assert (zip indices objects = built) as Hzip.
  { apply (StronglySorted_unique_strong (λ p q : Z * Obj, p.1 ≤ q.1)).
    - intros p q Hp Hq Hpq Hqp.
      rewrite Hperm in Hp. unfold built in Hq. rewrite sort_by_key_perm in Hq.
      apply list_elem_of_fmap in Hp as ([o1 c1] & -> & Hp).
      apply list_elem_of_fmap in Hq as ([o2 c2] & -> & Hq).
      apply dict_get_elem_of in Hp, Hq; [|done..]. simpl in *.
      assert (o1 = o2) as -> by (eapply Hties; [done..|lia]).
      by simplify_eq.
    - apply StronglySorted_fmap_inv. by rewrite fst_zip by lia.
    - apply StronglySorted_fmap_inv, sort_by_key_sorted.
    - rewrite Hperm. unfold built. by rewrite sort_by_key_perm. }
  assert ((indices, objects) = (built.*1, built.*2)) as ->.
  { rewrite <-Hzip. by rewrite fst_zip, snd_zip by lia. }
  unfold _sorted. cbn [_index _items dict_get fst]. f_equal.
  subst built. by destruct (_items self).
Qed.

End properties.

(** * The properties on the example objects *)

Lemma two_squares_reachable : reachable two_squares.
Proof. by exists [boxA; boxB], []. Qed.

Lemma two_squares_indexed_reachable : reachable two_squares_indexed.
Proof. by exists [boxA; boxB], [OpAt 5 5]. Qed.

Lemma one_square_indexed_reachable : reachable one_square_indexed.
Proof. by exists [boxA], [OpAt 0 0]. Qed.

Lemma init_reachable : reachable (init (Obj := box)).
Proof. by exists [], []. Qed.

(** The example of the specification: [at(5,5) = {A}],
    [intersecting(5,5,25,25) = {A, B}], [inside(5,5,25,25) = {}]. *)
Example at_example : (at_ 5 5 two_squares).1 = Ok {[boxA]}.
Proof. by vm_compute. Qed.

Example intersecting_example :
  (intersecting 5 5 25 25 two_squares).1 = Ok {[boxA; boxB]}.
Proof. by vm_compute. Qed.

Example inside_example : (inside 5 5 25 25 two_squares).1 = Ok ∅.
Proof. by vm_compute. Qed.

(** A and C have the same left coordinate.  Built from the item store, the
    index of the left side lists them in insertion order; [add(C)] on an
    existing index puts C in front of A. *)
Example built_index_order :
  dict_get (_index (at_ 0 0 (new [boxA; boxC])).2) Left = Some ([0; 0], [boxA; boxC]).
Proof. by vm_compute. Qed.

Example add_index_order :
  dict_get (_index (add boxC one_square_indexed).2) Left = Some ([0; 0], [boxC; boxA]).
Proof. by vm_compute. Qed.

(** The lateral value of [closest], side by side: the coordinate of the
    side itself is subtracted from the bottom or the right coordinate. *)
Lemma lateral_eq (coords : Rect) (side : Side) :
  lateral coords side =
  (inject_Z (coord coords (match side with
                           | Left | Right => Bottom
                           | Top | Bottom => Right
                           end)
             - coord coords side) / 2)%Q.
Proof. by destruct side. Qed.

Lemma two_squares_proper : proper_rects two_squares.
Proof.
  intros obj coords. destruct obj; vm_compute; intros [= <-]; by split.
Qed.

(** C1: with the squares A = (0,0,10,10) and B = (20,20,30,30) as the only
    managed objects, [closest(A, Right)] returns B.  The lateral value of
    [closest] is [(coords[3] - coords[2]) / 2.0] for this side, which is 0
    for both squares, and the distance along the axis is the difference of
    the left coordinates, 20. *)
Theorem closest_right_returns_B :
  _items two_squares = [(boxA, (0, 0, 10, 10)); (boxB, (20, 20, 30, 30))] ∧
  side_xor_1_or_2 Right = Bottom ∧ side_xor_1_and_2 Right = Right ∧
  lateral (0, 0, 10, 10) Right = lateral (20, 20, 30, 30) Right ∧
  (closest boxA Right two_squares).1 = Ok (Some boxB) ∧
  (closest boxA Right two_squares_indexed).1 = Ok (Some boxB).
Proof. by vm_compute. Qed.

(** C2, as stated, fails: with A = (0,0,10,10) indexed, [add(C)] for
    C = (0,20,10,30) does not put C after A in the index of the left side,
    where both have coordinate 0. *)
Lemma add_not_after_ties : ¬ add_after_ties one_square_indexed boxC.
Proof.
  intros Hafter.
  destruct (Hafter Left [0] [boxA] eq_refl)
    as (indices' & objects' & k & Hg & Hk & _ & _ & Hties).
  vm_compute in Hg. injection Hg as <- <-.
  destruct k as [|[|k]]; [|done..].
  specialize (Hties 1%nat eq_refl). lia.
Qed.

Lemma add_inserts_before_ties_witness : add_before_ties one_square_indexed boxC.
Proof.
  apply add_inserts_before_ties.
  - apply one_square_indexed_reachable.
  - reflexivity.
Defined.

(** C3, as stated, fails for [closest]: on the empty index it does not
    return [None]. *)
Lemma closest_empty_not_None : (closest boxA Right (init (Obj := box))).1 ≠ Ok None.
Proof. by vm_compute. Qed.

Lemma empty_index_queries_witness :
  (∀ x y, (at_ x y (init (Obj := box))).1 = Ok ∅) ∧
  (∀ l t r b, (inside l t r b (init (Obj := box))).1 = Ok ∅) ∧
  (∀ l t r b, (intersecting l t r b (init (Obj := box))).1 = Ok ∅) ∧
  (∀ x y, (nearest x y (init (Obj := box))).1 = Ok None) ∧
  (∀ obj side, (closest obj side (init (Obj := box))).1 = Raise KeyError).
Proof.
  apply empty_index_queries.
  - apply init_reachable.
  - reflexivity.
Defined.

Lemma at_exact_witness :
  ∃ s : gset box,
    (at_ 5 5 two_squares).1 = Ok s ∧
    ∀ obj, obj ∈ s ↔
      ∃ coords, dict_get (_items two_squares) obj = Some coords ∧
        coord coords Top ≤ 5 ∧ 5 ≤ coord coords Bottom ∧
        coord coords Left ≤ 5 ∧ 5 ≤ coord coords Right.
Proof. apply at_exact, two_squares_reachable. Defined.

Lemma invariant_preserved_witness :
  wf (exec (OpAdd boxC) two_squares_indexed) ∧
  index_consistent (exec (OpAdd boxC) two_squares_indexed).
Proof.
  apply invariant_preserved, reachable_wf, two_squares_indexed_reachable.
Defined.

Lemma remove_unmanaged_witness :
  remove boxC two_squares = (Raise KeyError, two_squares).
Proof. apply remove_unmanaged. reflexivity. Defined.

(** C7 fails on the specification's own example: A and B are at the same
    distance, 10, from the point (15, 15), as the bottom-right and the
    top-left corner candidate; [min(result)] then compares the tuples
    [(10, A)] and [(10, B)], hence the two objects, and raises
    [TypeError]. *)
Theorem nearest_tie_raises :
  len two_squares = 2%nat ∧ proper_rects two_squares ∧
  (nearest 15 15 two_squares).1 = Raise TypeError.
Proof. split_and!; [done|apply two_squares_proper|by vm_compute]. Qed.

Lemma inside_subseteq_intersecting_witness :
  ∃ s1 s2 : gset box,
    (inside 0 0 25 25 two_squares).1 = Ok s1 ∧
    (intersecting 0 0 25 25 two_squares).1 = Ok s2 ∧
    s1 ⊆ s2.
Proof.
  apply inside_subseteq_intersecting.
  - apply two_squares_reachable.
  - apply two_squares_proper.
Defined.

Lemma queries_index_independent_witness :
  (∀ x y, (at_ x y two_squares).1 = (at_ x y two_squares_indexed).1) ∧
  (∀ l t r b, (inside l t r b two_squares).1 = (inside l t r b two_squares_indexed).1) ∧
  (∀ l t r b, (intersecting l t r b two_squares).1
              = (intersecting l t r b two_squares_indexed).1).
Proof.
  apply queries_index_independent.
  - apply two_squares_reachable.
  - apply two_squares_indexed_reachable.
  - reflexivity.
Defined.

(** ** The further properties on the example objects *)

Lemma two_stacked_reachable : reachable two_stacked.
Proof. by exists [boxA; boxC], []. Qed.

Lemma two_stacked_proper : proper_rects two_stacked.
Proof.
  intros obj coords. destruct obj; vm_compute; intros [= <-]; by split.
Qed.



Lemma add_new_object_witness :
  (add boxC two_squares).1 = Ok () ∧
  len (add boxC two_squares).2 = S (len two_squares) ∧
  (∀ o, dict_get (_items (add boxC two_squares).2) o
        = if decide (o = boxC) then Some (get_coords boxC)
          else dict_get (_items two_squares) o) ∧
  coords_log (add boxC two_squares).2 = coords_log two_squares ++ [boxC].
Proof. apply add_new_object. reflexivity. Defined.

Lemma remove_managed_object_witness :
  (remove boxA two_squares).1 = Ok () ∧
  S (len (remove boxA two_squares).2) = len two_squares ∧
  (∀ o, dict_get (_items (remove boxA two_squares).2) o
        = if decide (o = boxA) then None else dict_get (_items two_squares) o) ∧
  coords_log (remove boxA two_squares).2 = coords_log two_squares.
Proof.
  apply remove_managed_object; [apply two_squares_reachable|reflexivity].
Defined.

Lemma add_then_ask_witness :
  ∃ s s' : gset box,
    (ask (QAt 5 25) two_squares).1 = Ok s ∧
    (ask (QAt 5 25) (add boxC two_squares).2).1 = Ok s' ∧
    ∀ o, o ∈ s' ↔ o ∈ s ∨ (o = boxC ∧ meets (QAt 5 25) (get_coords boxC)).
Proof.
  apply add_then_ask; [apply two_squares_reachable|reflexivity].
Defined.

Lemma remove_then_ask_witness :
  ∃ s s' : gset box,
    (ask (QAt 5 5) two_squares).1 = Ok s ∧
    (ask (QAt 5 5) (remove boxA two_squares).2).1 = Ok s' ∧
    s' = s ∖ {[boxA]}.
Proof. apply remove_then_ask, two_squares_reachable. Defined.

Lemma add_remove_round_trip_witness :
  (remove boxC (add boxC two_squares_indexed).2).1 = Ok () ∧
  _items (remove boxC (add boxC two_squares_indexed).2).2 = _items two_squares_indexed ∧
  _index (remove boxC (add boxC two_squares_indexed).2).2 = _index two_squares_indexed.
Proof.
  apply add_remove_round_trip; [apply two_squares_indexed_reachable|reflexivity].
Defined.

Lemma width_height_managed_witness :
  width boxA two_squares
  = (Ok (coord (get_coords boxA) Right - coord (get_coords boxA) Left), two_squares) ∧
  height boxA two_squares
  = (Ok (coord (get_coords boxA) Bottom - coord (get_coords boxA) Top), two_squares).
Proof.
  apply width_height_managed; [apply two_squares_reachable|reflexivity].
Defined.

Lemma unmanaged_raises_witness :
  width boxC two_squares = (Raise KeyError, two_squares) ∧
  height boxC two_squares = (Raise KeyError, two_squares) ∧
  closest boxC Left two_squares = (Raise KeyError, two_squares).
Proof. apply unmanaged_raises. reflexivity. Defined.

Lemma bulk_add_as_adds_witness :
  _items (bulk_add [boxC; boxA] two_squares).2
  = _items (run (OpAdd <$> [boxC; boxA]) two_squares) ∧
  ∀ q : set_query,
    (ask q (bulk_add [boxC; boxA] two_squares).2).1
    = (ask q (run (OpAdd <$> [boxC; boxA]) two_squares)).1.
Proof. apply bulk_add_as_adds, two_squares_reachable. Defined.

Lemma inside_exact_witness :
  ∃ s : gset box,
    (inside 0 0 25 25 two_squares).1 = Ok s ∧
    ∀ obj, obj ∈ s ↔
      ∃ coords, dict_get (_items two_squares) obj = Some coords ∧
        0 ≤ coord coords Top ∧ coord coords Bottom ≤ 25 ∧
        0 ≤ coord coords Left ∧ coord coords Right ≤ 25.
Proof. apply inside_exact, two_squares_reachable. Defined.

Lemma intersecting_exact_witness :
  ∃ s : gset box,
    (intersecting 5 5 25 25 two_squares).1 = Ok s ∧
    ∀ obj, obj ∈ s ↔
      ∃ coords, dict_get (_items two_squares) obj = Some coords ∧
        coord coords Top ≤ 25 ∧ 5 ≤ coord coords Bottom ∧
        coord coords Left ≤ 25 ∧ 5 ≤ coord coords Right.
Proof. apply intersecting_exact, two_squares_reachable. Defined.

Lemma intersecting_iff_at_some_point_witness :
  ∃ s : gset box,
    (intersecting 5 5 25 25 two_squares).1 = Ok s ∧
    ∀ obj, obj ∈ s ↔
      ∃ (x y : Z) (s' : gset box),
        5 ≤ x ≤ 25 ∧ 5 ≤ y ≤ 25 ∧ (at_ x y two_squares).1 = Ok s' ∧ obj ∈ s'.
Proof.
  apply intersecting_iff_at_some_point;
    [apply two_squares_reachable|apply two_squares_proper|lia|lia].
Defined.


Lemma nearest_outside_minimal_witness :
  ∃ c, dict_get (_items two_stacked) boxC = Some c ∧
       ∀ o' c', dict_get (_items two_stacked) o' = Some c' → gap 5 50 c ≤ gap 5 50 c'.
Proof.
  apply nearest_outside_minimal.
  - apply two_stacked_reachable.
  - apply two_stacked_proper.
  - intros obj c. destruct obj; vm_compute; intros [= <-]; intuition congruence.
  - reflexivity.
Defined.



Lemma closest_forward_witness :
  ∃ c co,
    dict_get (_items two_squares) boxA = Some c ∧
    dict_get (_items two_squares) boxB = Some co ∧
    coord c (side_xor_2 Right) < coord co (side_xor_2 Right).
Proof.
  apply closest_forward; [apply two_squares_reachable|by left|reflexivity].
Defined.

Lemma closest_backward_witness :
  ∃ c co,
    dict_get (_items two_squares) boxB = Some c ∧
    dict_get (_items two_squares) boxA = Some co ∧
    coord co (side_xor_2 Left) < coord c (side_xor_2 Left).
Proof.
  apply closest_backward; [apply two_squares_reachable|by left| |reflexivity].
  exists boxA, (20, 20, 30, 30), (0, 0, 10, 10).
  split_and!; [reflexivity..|]. vm_compute. reflexivity.
Defined.


Lemma index_without_ties_witness :
  (_sorted Left (mkRectangles (_items two_squares_indexed) []
                   (coords_log two_squares_indexed))).1
  = Ok ([0; 20], [boxA; boxB]).
Proof.
  apply index_without_ties.
  - apply two_squares_indexed_reachable.
  - reflexivity.
  - intros o1 o2 c1 c2 H1 H2 Heq.
    destruct o1, o2; vm_compute in H1, H2; simplify_eq; done.
Defined.
